(** * Compare-Company-Returns: a shallow embedding of [app.py]

    The dashboard downloads adjusted closing prices, reports the average
    annualised log-return of each entered ticker and a rough beta against
    SPY, and draws a price chart.

    Modelling choices.
    - A float64 is a real number or one of the three IEEE specials
      ([npfloat]); arithmetic is exact (no rounding) and the two zeros are
      identified.  The specials follow the IEEE rules numpy applies
      element-wise (x/0, log 0, log of a negative number, ...).
    - A pandas Series is an association list from dates to values, in index
      order.
    - Streamlit output and provider calls are recorded, in order, in one
      event log that every function threads through; Python exceptions are
      the [Raise] outcome of the monad [M], and [try ... except Exception]
      is [try_except].
    - The market-data provider is a parameter: its answer may depend on the
      ticker, the period and on everything that happened before. *)

From Stdlib Require Import Reals Lra Lia List String ZArith Bool Arith Sorted.
Import ListNotations.

Local Open Scope string_scope.
Local Open Scope list_scope.
Local Open Scope R_scope.

(** ** float64 values *)

Inductive npfloat : Type :=
| Fin (r : R)
| PInf
| NInf
| NaN.

(** Sign of a real: [Gt] positive, [Eq] zero, [Lt] negative. *)
Definition Rsgn (x : R) : comparison :=
  match total_order_T 0 x with
  | inleft (left _) => Gt
  | inleft (right _) => Eq
  | inright _ => Lt
  end.

Definition sign_mul (a b : comparison) : comparison :=
  match a, b with
  | Eq, _ | _, Eq => Eq
  | Gt, Gt | Lt, Lt => Gt
  | _, _ => Lt
  end.

(** The infinity of a given sign; a zero sign stands for an invalid
    operation (0/0, 0*inf). *)
Definition inf_of (c : comparison) : npfloat :=
  match c with Gt => PInf | Lt => NInf | Eq => NaN end.

(** Sign of a value that is not NaN. *)
Definition sgn (a : npfloat) : comparison :=
  match a with
  | Fin x => Rsgn x
  | PInf => Gt
  | NInf => Lt
  | NaN => Eq
  end.

Definition np_add (a b : npfloat) : npfloat :=
  match a, b with
  | NaN, _ | _, NaN => NaN
  | Fin x, Fin y => Fin (x + y)
  | PInf, NInf | NInf, PInf => NaN
  | PInf, _ | _, PInf => PInf
  | NInf, _ | _, NInf => NInf
  end.

Definition np_mul (a b : npfloat) : npfloat :=
  match a, b with
  | NaN, _ | _, NaN => NaN
  | Fin x, Fin y => Fin (x * y)
  | _, _ => inf_of (sign_mul (sgn a) (sgn b))
  end.

Definition np_div (a b : npfloat) : npfloat :=
  match a, b with
  | NaN, _ | _, NaN => NaN
  | Fin x, Fin y =>
      match Rsgn y with
      | Eq => inf_of (Rsgn x)
      | _ => Fin (x / y)
      end
  | Fin _, _ => Fin 0
  | _, Fin y => inf_of (sign_mul (sgn a) (match Rsgn y with Eq => Gt | c => c end))
  | _, _ => NaN
  end.

(** [np.log] on one value. *)
Definition np_log (a : npfloat) : npfloat :=
  match a with
  | Fin x =>
      match Rsgn x with
      | Gt => Fin (ln x)
      | Eq => NInf
      | Lt => NaN
      end
  | PInf => PInf
  | NInf | NaN => NaN
  end.

Definition is_nan (a : npfloat) : bool :=
  match a with NaN => true | _ => false end.

Definition finite (a : npfloat) : option R :=
  match a with Fin r => Some r | _ => None end.

(** ** Series *)

Definition date := Z.

Definition Series := list (date * npfloat).

Definition index (s : Series) : list date := map fst s.
Definition values (s : Series) : list npfloat := map snd s.

(** [s.shift(1)]: same index, values moved one row down, NaN on top. *)
Definition shift1 (s : Series) : Series :=
  combine (index s) (NaN :: removelast (values s)).

(** Element-wise binary operation of two series that share their index
    object (as [s] and [s.shift(1)] do): rows are paired by position. *)
Definition series_zip (f : npfloat -> npfloat -> npfloat) (a b : Series) : Series :=
  map (fun '((d, x), (_, y)) => (d, f x y)) (combine a b).

Definition series_map (f : npfloat -> npfloat) (s : Series) : Series :=
  map (fun '(d, x) => (d, f x)) s.

Definition dropna (s : Series) : Series :=
  filter (fun '(_, x) => negb (is_nan x)) s.

Definition np_sum (l : list npfloat) : npfloat :=
  fold_left np_add l (Fin 0).

(** [Series.mean()] (skipna=True): NaN for a series with no valid entry. *)
Definition mean (s : Series) : npfloat :=
  let vs := values (dropna s) in
  match vs with
  | [] => NaN
  | _ => np_div (np_sum vs) (Fin (INR (List.length vs)))
  end.

(** [np.log(s / s.shift(1)).dropna()] *)
Definition log_returns (s : Series) : Series :=
  dropna (series_map np_log (series_zip np_div s (shift1 s))).

(** ** Exceptions, the event log and the monad *)

Inductive exn : Type :=
| TypeError       (* raised by np.polyfit on empty or mismatched vectors *)
| KeyError        (* a missing DataFrame column *)
| LinAlgError     (* the least-squares solver did not converge *)
| ProviderError.  (* anything yf.download raises *)

Inductive result (A : Type) : Type :=
| Ok (a : A)
| Raise (e : exn).
Arguments Ok {A} a.
Arguments Raise {A} e.

(** The texts passed to [st.error]:
    - [NoDataFor t]: No data available for t. Please enter a valid ticker.
    - [DataNotAvailable t]: Data for t is not available.
    - [FetchFailed t]: An error occurred while fetching data for t
    - [NoDataForSPY]: No data available for SPY. Please check your internet
      connection.
    - [BetaFailed t]: An error occurred while calculating beta for t *)
Inductive error_msg : Type :=
| NoDataFor (ticker : string)
| DataNotAvailable (ticker : string)
| FetchFailed (ticker : string)
| NoDataForSPY
| BetaFailed (ticker : string).

(** The texts passed to [st.write]. *)
Inductive text : Type :=
| BetaLine (ticker : string) (beta : npfloat)  (* Beta for <ticker> is: <beta:.2f> *)
| SpyBetaLine                                  (* Beta for SPY is 1.00 *)
| EmptyLine
| NoValidTickers.  (* No valid tickers entered. Please enter at least one valid ticker. *)

(** One [go.Scatter] trace of the figure. *)
Record Scatter : Type := mkScatter {
  sc_x : list date;
  sc_y : list npfloat;
  sc_name : string;
  sc_color : string
}.

Definition Figure := list Scatter.

Inductive event : Type :=
| Download (ticker period : string)   (* one call of yf.download *)
| StError (m : error_msg)
| StWrite (t : text)
| PlotlyChart (fig : Figure).

Definition Log := list event.

Definition M (A : Type) : Type := Log -> result A * Log.

Definition ret {A} (a : A) : M A := fun l => (Ok a, l).

Definition bind {A B} (m : M A) (k : A -> M B) : M B :=
  fun l =>
    match m l with
    | (Ok a, l') => k a l'
    | (Raise e, l') => (Raise e, l')
    end.

Definition raise {A} (e : exn) : M A := fun l => (Raise e, l).

(** [try: body  except Exception as e: handler] *)
Definition try_except {A} (body : M A) (handler : exn -> M A) : M A :=
  fun l =>
    match body l with
    | (Ok a, l') => (Ok a, l')
    | (Raise e, l') => handler e l'
    end.

Definition emit (e : event) : M unit := fun l => (Ok tt, l ++ [e]).

Definition st_error (m : error_msg) : M unit := emit (StError m).
Definition st_write (t : text) : M unit := emit (StWrite t).

(** A pure computation that may raise. *)
Definition lift {A} (r : result A) : M A := fun l => (r, l).

Notation "x <- m ;; k" := (bind m (fun x => k))
  (at level 61, m at next level, right associativity).
Notation "m ;; k" := (bind m (fun _ => k))
  (at level 61, right associativity).

(** ** The provider's answer *)

(** A DataFrame: its index and its named columns, each as long as the index. *)
Record DataFrame : Type := mkFrame {
  df_index : list date;
  df_columns : list (string * list npfloat)
}.

(** [df.empty]: some axis has length zero. *)
Definition df_empty (df : DataFrame) : bool :=
  (List.length (df_index df) =? 0)%nat || (List.length (df_columns df) =? 0)%nat.

Fixpoint assoc {A} (key : string) (l : list (string * A)) : option A :=
  match l with
  | [] => None
  | (k, v) :: rest => if String.eqb key k then Some v else assoc key rest
  end.

(** [name in df.columns] and [df[name]] together: the column as a Series. *)
Definition df_column (name : string) (df : DataFrame) : option Series :=
  option_map (combine (df_index df)) (assoc name (df_columns df)).

(** [df[name]], raising KeyError when the column is missing. *)
Definition df_getitem (name : string) (df : DataFrame) : result Series :=
  match df_column name df with
  | Some s => Ok s
  | None => Raise KeyError
  end.

Inductive download_result : Type :=
| DownloadRaises
| DownloadFrame (df : DataFrame).

(** ** Least squares *)

Fixpoint finites (l : list npfloat) : option (list R) :=
  match l with
  | [] => Some []
  | a :: rest =>
      match finite a, finites rest with
      | Some r, Some rs => Some (r :: rs)
      | _, _ => None
      end
  end.

Definition Rsum (l : list R) : R := fold_right Rplus 0 l.

Fixpoint dot (a b : list R) : R :=
  match a, b with
  | x :: a', y :: b' => x * y + dot a' b'
  | _, _ => 0
  end.

(** [np.polyfit(x, y, 1)] as (slope, intercept).

    numpy raises TypeError on an empty [x] and on vectors of different
    length.  Otherwise it scales the two columns [x] and [1] of the design
    matrix by their norms and asks [lstsq] for the least-squares solution
    of smallest norm:
    - rank 2 ([x] takes two different values): the ordinary least-squares
      line;
    - rank 1 ([x] is constant, not zero): among the lines through the mean
      point the one of smallest scaled norm, slope [mean y / (2 c)] and
      intercept [mean y / 2] (numpy also emits a RankWarning);
    - when the scaled matrix or the right-hand side is not finite ([x] is
      all zeros so that the first scale is 0, or an infinity occurs) the
      outcome depends on the LAPACK build; it is the parameter
      [lstsq_nonfinite].

    This is the solver in exact arithmetic.  numpy solves in float64 by SVD
    and decides the rank with the tolerance [rcond = n * eps]: its result is
    the line below up to a rounding error that grows with the conditioning
    of [x], and on nearly constant [x] it can differ visibly.  What is exact
    in float64 as well: the two TypeError cases, and the zero line for an
    all-zero [y]. *)
Definition polyfit1 (lstsq_nonfinite : list npfloat -> list npfloat -> result (npfloat * npfloat))
    (x y : list npfloat) : result (npfloat * npfloat) :=
  if (List.length x =? 0)%nat then Raise TypeError
  else if negb (List.length x =? List.length y)%nat then Raise TypeError
  else
    match finites x, finites y with
    | Some xs, Some ys =>
        let n := INR (List.length xs) in
        let sx := Rsum xs in
        let sy := Rsum ys in
        let sxx := dot xs xs in
        let sxy := dot xs ys in
        if Req_dec_T sxx 0 then lstsq_nonfinite x y
        else if Req_dec_T (n * sxx - sx * sx) 0
        then Ok (Fin ((sy / n) / (2 * (sx / n))), Fin ((sy / n) / 2))
        else
          let slope := (n * sxy - sx * sy) / (n * sxx - sx * sx) in
          Ok (Fin slope, Fin ((sy - slope * sx) / n))
    | _, _ => lstsq_nonfinite x y
    end.

(** ** Alignment *)

(** [pd.merge(left, right, how='inner', left_index=True, right_index=True)]
    of two Series: one row per pair of rows with the same date, in the order
    of the left keys.  A row is (date, left value, right value); the two
    value columns are named [Adj Close_<ticker>] and [Adj Close_SPY]. *)
Definition MergedFrame := list (date * (npfloat * npfloat)).

Fixpoint inner_join (left right : Series) : MergedFrame :=
  match left with
  | [] => []
  | (d, a) :: rest =>
      map (fun '(_, b) => (d, (a, b))) (filter (fun '(d', _) => Z.eqb d d') right)
        ++ inner_join rest right
  end.

Definition left_column (m : MergedFrame) : Series := map (fun '(d, (a, _)) => (d, a)) m.
Definition right_column (m : MergedFrame) : Series := map (fun '(d, (_, b)) => (d, b)) m.

(** Lines 88-96 of [calculate_beta]: merge, log-returns of both columns,
    degree-1 fit of the stock's returns on SPY's, slope kept. *)
Definition beta_regression
    (lstsq_nonfinite : list npfloat -> list npfloat -> result (npfloat * npfloat))
    (stock_data spy_data : Series) : result npfloat :=
  let merged_data := inner_join stock_data spy_data in
  let log_returns_stock := log_returns (left_column merged_data) in
  let log_returns_spy := log_returns (right_column merged_data) in
  match polyfit1 lstsq_nonfinite (values log_returns_spy) (values log_returns_stock) with
  | Ok (slope, intercept) => Ok slope
  | Raise e => Raise e
  end.

Definition line_colors : list string :=
  ["blue"; "red"; "green"; "orange"; "purple"; "yellow"; "cyan"; "magenta";
   "brown"; "pink"; "gray"; "olive"; "teal"].

(** The three lists the ticker loop fills. *)
Record Lists : Type := mkLists {
  valid_tickers : list string;
  individual_returns : list npfloat;
  individual_betas : list npfloat
}.

(** The ticker input loop: slot [k] holds the [k]-th entry; the first empty
    slot ends the loop. *)
Fixpoint collect_tickers (entries : list string) : list string :=
  match entries with
  | [] => []
  | new_ticker :: rest =>
      if String.eqb new_ticker "" then [] else new_ticker :: collect_tickers rest
  end.

(** ** Vocabulary of the specification *)

(** The consecutive log-returns [ln (p[t] / p[t-1])], [t = 1 .. n-1], of a
    list of prices, as the specification words them. *)
Definition consecutive_log_returns (p : list R) : list R :=
  map (fun t => ln (nth t p 0 / nth (t - 1) p 0)) (seq 1 (List.length p - 1)).

(** Their arithmetic mean, times 252, times 100. *)
Definition annualised_mean_log_return (p : list R) : R :=
  Rsum (consecutive_log_returns p) / INR (List.length p - 1) * 252 * 100.

(** A list that takes at least two different values. *)
Definition varying {A} (l : list A) : Prop :=
  exists a b, In a l /\ In b l /\ a <> b.

(** Every value of the series is a positive real. *)
Definition positive_prices (s : Series) : Prop :=
  Forall (fun v => exists r, v = Fin r /\ 0 < r) (values s).

Definition has_date (s : Series) (d : date) : bool :=
  existsb (Z.eqb d) (index s).

(** The dates of [a], in order, that [b] has too. *)
Definition shared_dates (a b : Series) : list date :=
  filter (has_date b) (index a).

(** [a] without the rows whose date [b] lacks. *)
Definition restrict_to (b a : Series) : Series :=
  filter (fun '(d, _) => has_date b d) a.

(** Rows of [s / s.shift(1)] that follow a row holding [prev]. *)
Fixpoint ratios_after (prev : npfloat) (vs : list npfloat) : list npfloat :=
  match vs with
  | [] => []
  | v :: rest => np_div v prev :: ratios_after v rest
  end.

(** The same on reals: [ln (v / prev)] along the list. *)
Fixpoint log_ratios_after (prev : R) (p : list R) : list R :=
  match p with
  | [] => []
  | v :: rest => ln (v / prev) :: log_ratios_after v rest
  end.

(** Lines 48-51: what [calculate_average_annual_return] makes of a fetched
    series. *)
Definition annualise (s : Series) : npfloat :=
  np_mul (np_mul (mean (log_returns s)) (Fin 252)) (Fin 100).

(** ** Sample environments *)

(** A provider with no connection: every download raises. *)
Definition offline : Log -> string -> string -> download_result :=
  fun _ _ _ => DownloadRaises.

(** A frame with the columns a download carries, here all equal. *)
Definition frame_of (rows : list (date * R)) : DataFrame :=
  let col := map (fun '(_, p) => Fin p) rows in
  mkFrame (map fst rows) [("Adj Close", col); ("Close", col); ("Volume", col)].

(** A provider that answers every request with the same rows. *)
Definition always (rows : list (date * R)) : Log -> string -> string -> download_result :=
  fun _ _ _ => DownloadFrame (frame_of rows).

(** A provider with one listing for SPY and another for every other
    ticker. *)
Definition two_listings (stock spy : list (date * R))
  : Log -> string -> string -> download_result :=
  fun _ ticker _ =>
    if String.eqb ticker "SPY" then DownloadFrame (frame_of spy)
    else DownloadFrame (frame_of stock).

(** A solver that gives up on non-finite data. *)
Definition lstsq_gives_up : list npfloat -> list npfloat -> result (npfloat * npfloat) :=
  fun _ _ => Raise LinAlgError.

(** ** Reading the event log *)

(** The provider calls of a log, oldest first, as (ticker, period). *)
Fixpoint downloads (l : Log) : list (string * string) :=
  match l with
  | [] => []
  | Download t p :: rest => (t, p) :: downloads rest
  | _ :: rest => downloads rest
  end.

Definition count_downloads (ticker : string) (l : Log) : nat :=
  List.length (filter (fun '(t, _) => String.eqb t ticker) (downloads l)).

(** The beta lines written for tickers other than SPY, oldest first. *)
Fixpoint beta_lines (l : Log) : list (string * npfloat) :=
  match l with
  | [] => []
  | StWrite (BetaLine t b) :: rest => (t, b) :: beta_lines rest
  | _ :: rest => beta_lines rest
  end.

(** Events of the fetch layer: provider calls and error messages. *)
Definition fetch_event (e : event) : bool :=
  match e with
  | Download _ _ | StError _ => true
  | _ => false
  end.

Definition has_chart (l : Log) : bool :=
  existsb (fun e => match e with PlotlyChart _ => true | _ => false end) l.

(** What one iteration of the ticker loop does to the three lists, given
    the two results it computed (lines 117-123). *)
Definition record_results (ticker : string) (ret_ beta_ : option npfloat) (acc : Lists) : Lists :=
  let acc1 :=
    match ret_ with
    | Some annual_return =>
        mkLists (valid_tickers acc ++ [ticker])
                (individual_returns acc ++ [annual_return])
                (individual_betas acc)
    | None => acc
    end in
  match beta_ with
  | Some beta =>
      if negb (String.eqb ticker "SPY") then
        mkLists (valid_tickers acc1) (individual_returns acc1) (individual_betas acc1 ++ [beta])
      else acc1
  | None => acc1
  end.

(** The line that iteration writes (lines 121-128). *)
Definition beta_text (ticker : string) (beta_ : option npfloat) : text :=
  match beta_ with
  | Some beta => if negb (String.eqb ticker "SPY") then BetaLine ticker beta else SpyBetaLine
  | None => EmptyLine
  end.

(** ** Further vocabulary *)

(** Every value of the series multiplied by [a]. *)
Definition scale_series (a : R) (s : Series) : Series :=
  series_map (np_mul (Fin a)) s.

(** Rows ordered by date. *)
Definition earlier (a b : date * npfloat) : Prop := (fst a < fst b)%Z.


(** The texts written with [st.write], oldest first. *)
Fixpoint writes (l : Log) : list text :=
  match l with
  | [] => []
  | StWrite t :: rest => t :: writes rest
  | _ :: rest => writes rest
  end.

(** Line 23: the period tokens offered in the select box. *)
Definition time_periods : list string :=
  ["5d"; "1mo"; "3mo"; "6mo"; "1y"; "2y"; "5y"; "10y"; "20y"; "ytd"; "max"].

(** Line 24. *)
Definition default_time_period : string := "10y".

(** [l.index(x)]: the position of the first element equal to [x]; None
    stands for the ValueError Python raises when there is none. *)
Fixpoint list_index (x : string) (l : list string) : option nat :=
  match l with
  | [] => None
  | y :: rest =>
      if String.eqb y x then Some 0%nat else option_map S (list_index x rest)
  end.

(** [st.selectbox(label, options, index=i)]: the option at the position the
    widget holds, which is [i] until the user picks another one. *)
Definition st_selectbox (options : list string) (i : nat) (picked : option nat) : string :=
  nth (match picked with Some k => k | None => i end) options "".

(** Line 25: the selected period, or None when computing the default
    position raises. *)
Definition select_time_period (picked : option nat) : option string :=
  option_map (fun i => st_selectbox time_periods i picked)
             (list_index default_time_period time_periods).

(** A provider whose SPY listing is down while every other ticker gets the
    same rows. *)
Definition spy_down (rows : list (date * R)) : Log -> string -> string -> download_result :=
  fun _ ticker _ =>
    if String.eqb ticker "SPY" then DownloadRaises else DownloadFrame (frame_of rows).

(** ** The program *)

Section App.

(** The period chosen in the select box. *)
Variable selected_time_period : string.

(** The provider: what [yf.download(ticker, period=..., auto_adjust=False)]
    does, given everything logged so far. *)
Variable provider : Log -> string -> string -> download_result.

(** The solver's behaviour on non-finite data, see [polyfit1]. *)
Variable lstsq_nonfinite : list npfloat -> list npfloat -> result (npfloat * npfloat).

Definition yf_download (ticker : string) : M DataFrame :=
  fun l =>
    match provider l ticker selected_time_period with
    | DownloadRaises => (Raise ProviderError, l ++ [Download ticker selected_time_period])
    | DownloadFrame df => (Ok df, l ++ [Download ticker selected_time_period])
    end.

Definition get_historical_data (ticker : string) : M (option Series) :=
  try_except
    (if String.eqb ticker "" then ret None
     else
       stock_data <- yf_download ticker ;;
       if df_empty stock_data then
         st_error (NoDataFor ticker) ;; ret None
       else
         match df_column "Adj Close" stock_data with
         | Some adj_close => ret (Some adj_close)
         | None => st_error (DataNotAvailable ticker) ;; ret None
         end)
    (fun e => st_error (FetchFailed ticker) ;; ret None).

Definition calculate_average_annual_return (ticker2 : string) : M (option npfloat) :=
  closing_prices <- get_historical_data ticker2 ;;
  match closing_prices with
  | None => ret None
  | Some closing_prices =>
      let log_rets := log_returns closing_prices in
      let average_daily_return := mean log_rets in
      let average_annual_return := np_mul average_daily_return (Fin 252) in
      ret (Some (np_mul average_annual_return (Fin 100)))
  end.

(** The body of the [for i, ticker in enumerate(tickers)] loop. *)
Fixpoint add_traces (i : nat) (tickers : list string) (fig : Figure) : M Figure :=
  match tickers with
  | [] => ret fig
  | ticker :: rest =>
      data <- get_historical_data ticker ;;
      match data with
      | Some data =>
          let color := nth (i mod List.length line_colors) line_colors "" in
          add_traces (S i) rest
            (fig ++ [mkScatter (index data) (values data) ticker color])
      | None => add_traces (S i) rest fig
      end
  end.

Definition visualize_returns (tickers : list string) : M unit :=
  fig <- add_traces 0 tickers [] ;;
  emit (PlotlyChart fig).

Definition calculate_beta (ticker : string) : M (option npfloat) :=
  try_except
    (if String.eqb ticker "SPY" then ret (Some (Fin 1))
     else
       stock_data <- get_historical_data ticker ;;
       match stock_data with
       | None => ret None
       | Some stock_data =>
           spy_frame <- yf_download "SPY" ;;
           spy_data <- lift (df_getitem "Adj Close" spy_frame) ;;
           if (List.length spy_data =? 0)%nat then
             st_error NoDataForSPY ;; ret None
           else
             beta <- lift (beta_regression lstsq_nonfinite stock_data spy_data) ;;
             ret (Some beta)
       end)
    (fun e => st_error (BetaFailed ticker) ;; ret None).

(** One iteration of [for ticker in tickers]. *)
Definition loop_body (ticker : string) (acc : Lists) : M Lists :=
  average_annual_return <- calculate_average_annual_return ticker ;;
  beta <- calculate_beta ticker ;;
  let acc1 :=
    match average_annual_return with
    | Some annual_return =>
        mkLists (valid_tickers acc ++ [ticker])
                (individual_returns acc ++ [annual_return])
                (individual_betas acc)
    | None => acc
    end in
  match beta with
  | Some beta =>
      if negb (String.eqb ticker "SPY") then
        st_write (BetaLine ticker beta) ;;
        ret (mkLists (valid_tickers acc1) (individual_returns acc1)
                     (individual_betas acc1 ++ [beta]))
      else
        st_write SpyBetaLine ;; ret acc1
  | None => st_write EmptyLine ;; ret acc1
  end.

Fixpoint ticker_loop (tickers : list string) (acc : Lists) : M Lists :=
  match tickers with
  | [] => ret acc
  | ticker :: rest => acc' <- loop_body ticker acc ;; ticker_loop rest acc'
  end.

(** [if individual_betas or "SPY" in valid_tickers] *)
Definition chart_condition (acc : Lists) : bool :=
  negb (List.length (individual_betas acc) =? 0)%nat
  || existsb (String.eqb "SPY") (valid_tickers acc).

(** Lines 101-134: one run of the script on the entries typed so far. *)
Definition script (entries : list string) : M unit :=
  let tickers := collect_tickers entries in
  acc <- ticker_loop tickers (mkLists [] [] []) ;;
  if chart_condition acc then visualize_returns (valid_tickers acc)
  else st_write NoValidTickers.

(** * Properties *)

(** C1. For the benchmark symbol SPY, [calculate_beta] returns exactly 1.00
    at once: whatever the provider would answer and whatever was logged
    before, the log is left as it was (no download, no message, no fit). *)
Theorem calculate_beta_benchmark :
  forall l : Log, calculate_beta "SPY" l = (Ok (Some (Fin 1)), l).
Proof. intros l. reflexivity. Qed.

(** The outcome of [get_historical_data], case by case. *)
Lemma get_historical_data_eq (ticker : string) (l : Log) :
  get_historical_data ticker l =
  if String.eqb ticker "" then (Ok None, l)
  else
    let l1 := l ++ [Download ticker selected_time_period] in
    match provider l ticker selected_time_period with
    | DownloadRaises => (Ok None, l1 ++ [StError (FetchFailed ticker)])
    | DownloadFrame df =>
        if df_empty df then (Ok None, l1 ++ [StError (NoDataFor ticker)])
        else match df_column "Adj Close" df with
             | Some s => (Ok (Some s), l1)
             | None => (Ok None, l1 ++ [StError (DataNotAvailable ticker)])
             end
    end.
Proof.
  unfold get_historical_data, try_except, bind, yf_download.
  destruct (String.eqb ticker ""); [reflexivity|].
  destruct (provider l ticker selected_time_period) as [|df]; [reflexivity|].
  destruct (df_empty df); [reflexivity|].
  destruct (df_column "Adj Close" df); reflexivity.
Qed.

(** C4. [get_historical_data] never lets an exception escape.  It returns
    None without any message or download for the empty ticker; it returns
    None after one error message naming the ticker when the download
    raises, when the frame is empty and when the frame lacks the adjusted
    close column; in the one remaining case it returns that column and
    reports nothing. *)
Theorem get_historical_data_outcomes (ticker : string) (l : Log) :
  (exists v l', get_historical_data ticker l = (Ok v, l')) /\
  get_historical_data "" l = (Ok None, l) /\
  (fst (get_historical_data ticker l) = Ok None <->
     ticker = "" \/
     provider l ticker selected_time_period = DownloadRaises \/
     exists df, provider l ticker selected_time_period = DownloadFrame df /\
                (df_empty df = true \/ df_column "Adj Close" df = None)) /\
  (ticker <> "" ->
   let l1 := l ++ [Download ticker selected_time_period] in
   match provider l ticker selected_time_period with
   | DownloadRaises =>
       get_historical_data ticker l = (Ok None, l1 ++ [StError (FetchFailed ticker)])
   | DownloadFrame df =>
       if df_empty df then
         get_historical_data ticker l = (Ok None, l1 ++ [StError (NoDataFor ticker)])
       else
         match df_column "Adj Close" df with
         | Some s => get_historical_data ticker l = (Ok (Some s), l1)
         | None =>
             get_historical_data ticker l
             = (Ok None, l1 ++ [StError (DataNotAvailable ticker)])
         end
   end).
Proof.
  pose proof (get_historical_data_eq ticker l) as E.
  repeat split.
  - rewrite E. destruct (String.eqb ticker ""); [eauto|].
    cbv zeta. destruct (provider l ticker selected_time_period) as [|df]; [eauto|].
    destruct (df_empty df); [eauto|].
    destruct (df_column "Adj Close" df); eauto.
  - intros H. rewrite E in H.
    destruct (String.eqb ticker "") eqn:Et.
    + left. now apply String.eqb_eq.
    + right. cbv zeta in H.
      destruct (provider l ticker selected_time_period) as [|df]; [now left|].
      right. exists df. split; [reflexivity|].
      destruct (df_empty df); [now left|].
      destruct (df_column "Adj Close" df); [discriminate H | now right].
  - intros [H | [H | [df [H [H' | H']]]]]; rewrite E.
    + subst ticker. reflexivity.
    + destruct (String.eqb ticker ""); [reflexivity|]. cbv zeta. now rewrite H.
    + destruct (String.eqb ticker ""); [reflexivity|]. cbv zeta. now rewrite H, H'.
    + destruct (String.eqb ticker ""); [reflexivity|]. cbv zeta. rewrite H, H'.
      now destruct (df_empty df).
  - intros Hne l1. rewrite E.
    destruct (String.eqb ticker "") eqn:Et.
    + apply String.eqb_eq in Et. contradiction.
    + cbv zeta. fold l1.
      destruct (provider l ticker selected_time_period) as [|df]; [reflexivity|].
      destruct (df_empty df); [reflexivity|].
      destruct (df_column "Adj Close" df); reflexivity.
Qed.

(** ** Arithmetic on float64 values *)

Lemma Rsgn_pos (x : R) : 0 < x -> Rsgn x = Gt.
Proof.
  intros H. unfold Rsgn.
  destruct (total_order_T 0 x) as [[H1 | H1] | H1]; [reflexivity | lra | lra].
Qed.

Lemma np_div_pos (x y : R) : 0 < y -> np_div (Fin x) (Fin y) = Fin (x / y).
Proof. intros H. simpl. now rewrite (Rsgn_pos y H). Qed.

Lemma np_log_pos (x : R) : 0 < x -> np_log (Fin x) = Fin (ln x).
Proof. intros H. simpl. now rewrite (Rsgn_pos x H). Qed.

Lemma np_div_nan (a : npfloat) : np_div a NaN = NaN.
Proof. now destruct a. Qed.

Lemma fold_np_add_fin (rs : list R) (a : R) :
  fold_left np_add (map Fin rs) (Fin a) = Fin (a + Rsum rs).
Proof.
  revert a. induction rs as [|r rs IH]; intros a; simpl.
  - f_equal. lra.
  - rewrite IH. f_equal. lra.
Qed.

Lemma np_sum_fin (rs : list R) : np_sum (map Fin rs) = Fin (Rsum rs).
Proof. unfold np_sum. rewrite fold_np_add_fin. f_equal. lra. Qed.

Lemma dropna_fin (dates : list date) (rs : list R) :
  dropna (combine dates (map Fin rs)) = combine dates (map Fin rs).
Proof.
  revert rs. induction dates as [|d dates IH]; intros [|r rs]; simpl; try reflexivity.
  unfold dropna in IH. now rewrite IH.
Qed.

(** ** Log-returns *)

Lemma shift1_cons (d : date) (v : npfloat) (rest : Series) (a : npfloat) :
  combine (index ((d, v) :: rest)) (a :: removelast (values ((d, v) :: rest)))
  = (d, a) :: combine (index rest) (v :: removelast (values rest)).
Proof.
  destruct rest as [|[d' v'] rest]; reflexivity.
Qed.

Lemma values_zip_shift (s : Series) (a : npfloat) :
  values (series_zip np_div s (combine (index s) (a :: removelast (values s))))
  = ratios_after a (values s).
Proof.
  revert a. induction s as [|[d v] rest IH]; intros a; [reflexivity|].
  rewrite shift1_cons. unfold series_zip in *. simpl. f_equal. apply IH.
Qed.

Lemma index_zip_shift (s : Series) (a : npfloat) :
  index (series_zip np_div s (combine (index s) (a :: removelast (values s))))
  = index s.
Proof.
  revert a. induction s as [|[d v] rest IH]; intros a; [reflexivity|].
  rewrite shift1_cons. unfold series_zip in *. simpl. f_equal. apply IH.
Qed.

Lemma values_series_map (f : npfloat -> npfloat) (s : Series) :
  values (series_map f s) = map f (values s).
Proof.
  induction s as [|[d v] rest IH]; simpl; [reflexivity|]. f_equal. apply IH.
Qed.

Lemma values_dropna (s : Series) :
  values (dropna s) = filter (fun x => negb (is_nan x)) (values s).
Proof.
  induction s as [|[d v] rest IH]; simpl; [reflexivity|].
  destruct (negb (is_nan v)); simpl; now rewrite IH.
Qed.

(** The values of [np.log(s / s.shift(1)).dropna()] depend on the values of
    [s] only. *)
Lemma values_log_returns (s : Series) :
  values (log_returns s)
  = filter (fun x => negb (is_nan x)) (map np_log (ratios_after NaN (values s))).
Proof.
  unfold log_returns, shift1.
  now rewrite values_dropna, values_series_map, values_zip_shift.
Qed.

Lemma log_ratios_positive (a : R) (p : list R) :
  0 < a -> Forall (Rlt 0) p ->
  map np_log (ratios_after (Fin a) (map Fin p)) = map Fin (log_ratios_after a p).
Proof.
  intros Ha Hp. revert a Ha. induction Hp as [|v rest Hv Hrest IH]; intros a Ha; [reflexivity|].
  cbn [map ratios_after log_ratios_after].
  rewrite (np_div_pos v a Ha), np_log_pos by (apply Rdiv_lt_0_compat; assumption).
  f_equal. now apply IH.
Qed.

Lemma filter_fin (rs : list R) :
  filter (fun x => negb (is_nan x)) (map Fin rs) = map Fin rs.
Proof. induction rs as [|r rs IH]; simpl; [reflexivity|]. now rewrite IH. Qed.

(** Log-returns of a series of positive prices [v :: p]. *)
Lemma values_log_returns_positive (s : Series) (v : R) (p : list R) :
  values s = map Fin (v :: p) -> Forall (Rlt 0) (v :: p) ->
  values (log_returns s) = map Fin (log_ratios_after v p).
Proof.
  intros Hs Hp. rewrite values_log_returns, Hs.
  cbn [map ratios_after]. rewrite np_div_nan. cbn [np_log filter is_nan negb].
  inversion Hp; subst.
  rewrite log_ratios_positive by assumption. apply filter_fin.
Qed.

Lemma log_ratios_after_length (a : R) (p : list R) :
  List.length (log_ratios_after a p) = List.length p.
Proof. revert a. induction p as [|v p IH]; intros a; simpl; [reflexivity|]. now rewrite IH. Qed.

(** The recursive form agrees with the indexed form of the specification. *)
Lemma log_ratios_after_indexed (a : R) (p : list R) :
  log_ratios_after a p = consecutive_log_returns (a :: p).
Proof.
  unfold consecutive_log_returns.
  replace (List.length (a :: p) - 1)%nat with (List.length p) by (simpl; lia).
  revert a. induction p as [|v p IH]; intros a; [reflexivity|].
  cbn [log_ratios_after List.length seq map]. f_equal.
  rewrite IH, <- (seq_shift _ 1), map_map.
  apply map_ext_in. intros t Ht. apply in_seq in Ht.
  destruct t as [|t]; [lia|].
  replace (S (S t) - 1)%nat with (S t) by lia.
  replace (S t - 1)%nat with t by lia.
  reflexivity.
Qed.

(** ** The return calculator *)

Lemma average_annual_return_of_fetch (ticker : string) (l l' : Log) (fetched : option Series) :
  get_historical_data ticker l = (Ok fetched, l') ->
  calculate_average_annual_return ticker l = (Ok (option_map annualise fetched), l').
Proof.
  intros H. unfold calculate_average_annual_return, bind. rewrite H.
  destruct fetched; reflexivity.
Qed.

Lemma mean_log_returns_positive (s : Series) (v : R) (p : list R) :
  values s = map Fin (v :: p) -> Forall (Rlt 0) (v :: p) -> p <> [] ->
  mean (log_returns s) = Fin (Rsum (log_ratios_after v p) / INR (List.length p)).
Proof.
  intros Hs Hp Hne. unfold mean.
  rewrite values_dropna, (values_log_returns_positive s v p Hs Hp), filter_fin.
  destruct p as [|q p]; [contradiction|].
  cbn [log_ratios_after map]. change (Fin (ln (q / v)) :: map Fin (log_ratios_after q p))
    with (map Fin (log_ratios_after v (q :: p))).
  rewrite np_sum_fin, length_map, log_ratios_after_length.
  apply np_div_pos. apply lt_0_INR. simpl. lia.
Qed.

Lemma annualise_positive (s : Series) (p : list R) :
  values s = map Fin p -> (2 <= List.length p)%nat -> Forall (Rlt 0) p ->
  annualise s = Fin (annualised_mean_log_return p).
Proof.
  intros Hs Hlen Hp.
  destruct p as [|v p]; [simpl in Hlen; lia|].
  assert (Hne : p <> []) by (destruct p; [simpl in Hlen; lia | discriminate]).
  unfold annualise. rewrite (mean_log_returns_positive s v p Hs Hp Hne).
  unfold annualised_mean_log_return. rewrite <- log_ratios_after_indexed.
  replace (List.length (v :: p) - 1)%nat with (List.length p) by (simpl; lia).
  reflexivity.
Qed.

(** C2. When the fetch is unavailable [calculate_average_annual_return]
    returns None.  When it yields a series of [n >= 2] positive prices [p],
    the result is the arithmetic mean of [ln (p[t] / p[t-1])],
    [t = 1 .. n-1], times 252, times 100 (in exact arithmetic). *)
Theorem average_annual_return_formula
    (ticker : string) (l l' : Log) (fetched : option Series) :
  get_historical_data ticker l = (Ok fetched, l') ->
  match fetched with
  | None => calculate_average_annual_return ticker l = (Ok None, l')
  | Some s =>
      forall p : list R,
        values s = map Fin p -> (2 <= List.length p)%nat -> Forall (Rlt 0) p ->
        calculate_average_annual_return ticker l
        = (Ok (Some (Fin (annualised_mean_log_return p))), l')
  end.
Proof.
  intros H. rewrite (average_annual_return_of_fetch _ _ _ _ H).
  destruct fetched as [s|]; [|reflexivity].
  intros p Hs Hlen Hp. simpl. now rewrite (annualise_positive s p Hs Hlen Hp).
Qed.

Lemma log_returns_single (s : Series) :
  List.length s = 1%nat -> values (log_returns s) = [].
Proof.
  intros H. destruct s as [|[d v] [|x s]]; try discriminate H.
  rewrite values_log_returns. simpl. now rewrite np_div_nan.
Qed.

Lemma annualise_single (s : Series) : List.length s = 1%nat -> annualise s = NaN.
Proof.
  intros H. unfold annualise, mean.
  now rewrite values_dropna, (log_returns_single s H).
Qed.

(** C3 (amended). For a fetched series of exactly one price the log-return
    set is empty and [calculate_average_annual_return] returns the float
    NaN: no exception is raised, and the result is not None. *)
Theorem single_price_return_is_nan (ticker : string) (l l' : Log) (s : Series) :
  get_historical_data ticker l = (Ok (Some s), l') ->
  List.length s = 1%nat ->
  calculate_average_annual_return ticker l = (Ok (Some NaN), l').
Proof.
  intros H Hlen. rewrite (average_annual_return_of_fetch _ _ _ _ H).
  simpl. now rewrite (annualise_single s Hlen).
Qed.

Lemma log_ratios_constant (c : R) (k : nat) :
  0 < c -> log_ratios_after c (repeat c k) = repeat 0 k.
Proof.
  intros Hc. induction k as [|k IH]; [reflexivity|].
  simpl. rewrite IH. f_equal.
  replace (c / c) with 1 by (field; lra). apply ln_1.
Qed.

Lemma Rsum_zeros (k : nat) : Rsum (repeat 0 k) = 0.
Proof. induction k as [|k IH]; simpl; [reflexivity|]. rewrite IH. lra. Qed.

Lemma annualise_constant (s : Series) (c : R) (n : nat) :
  0 < c -> (2 <= n)%nat -> values s = map Fin (repeat c n) -> annualise s = Fin 0.
Proof.
  intros Hc Hn Hs.
  destruct n as [|[|k]]; try lia.
  assert (Hp : Forall (Rlt 0) (c :: repeat c (S k))).
  { apply Forall_forall. intros x [Hx | Hx]; [now subst|].
    apply repeat_spec in Hx. now subst. }
  unfold annualise.
  rewrite (mean_log_returns_positive s c (repeat c (S k)) Hs Hp) by discriminate.
  rewrite log_ratios_constant, Rsum_zeros by assumption.
  simpl np_mul. f_equal. unfold Rdiv. lra.
Qed.

(** ** Least squares *)

Lemma finites_fin (rs : list R) : finites (map Fin rs) = Some rs.
Proof. induction rs as [|r rs IH]; simpl; [reflexivity|]. now rewrite IH. Qed.

Lemma dot_self_nonneg (xs : list R) : 0 <= dot xs xs.
Proof. induction xs as [|x xs IH]; simpl; [lra | nra]. Qed.

Lemma dot_self_zero (xs : list R) : dot xs xs = 0 -> forall x, In x xs -> x = 0.
Proof.
  induction xs as [|y xs IH]; simpl; intros H x Hx; [contradiction|].
  pose proof (dot_self_nonneg xs) as Hn.
  destruct Hx as [Hx | Hx].
  - subst. nra.
  - apply IH; [nra | assumption].
Qed.

(** Sum of squared deviations from [m], expanded. *)
Lemma squared_deviations (m : R) (xs : list R) :
  Rsum (map (fun x => (x - m) * (x - m)) xs)
  = dot xs xs - 2 * m * Rsum xs + INR (List.length xs) * (m * m).
Proof.
  induction xs as [|x xs IH].
  - simpl. lra.
  - cbn [map Rsum fold_right dot]. fold (Rsum (map (fun x => (x - m) * (x - m)) xs)).
    fold (Rsum xs). rewrite IH.
    change (List.length (x :: xs)) with (S (List.length xs)). rewrite S_INR. ring.
Qed.

Lemma squares_sum_nonneg (m : R) (xs : list R) :
  0 <= Rsum (map (fun x => (x - m) * (x - m)) xs).
Proof.
  unfold Rsum. induction xs as [|z xs IH]; cbn [map fold_right]; [lra|].
  pose proof (Rle_0_sqr (z - m)) as Hz. unfold Rsqr in Hz. lra.
Qed.

Lemma squares_sum_zero (m : R) (xs : list R) :
  Rsum (map (fun x => (x - m) * (x - m)) xs) = 0 -> forall x, In x xs -> x = m.
Proof.
  induction xs as [|y xs IH]; intros H x Hx; [contradiction|].
  pose proof (squares_sum_nonneg m xs) as Hn.
  unfold Rsum in *. cbn [map fold_right] in H.
  pose proof (Rle_0_sqr (y - m)) as Hy. unfold Rsqr in Hy.
  destruct Hx as [Hx | Hx].
  - subst. nra.
  - apply IH; [lra | assumption].
Qed.

(** The determinant of the normal equations vanishes only on constant data. *)
Lemma determinant_zero_constant (xs : list R) :
  INR (List.length xs) * dot xs xs - Rsum xs * Rsum xs = 0 ->
  forall a b, In a xs -> In b xs -> a = b.
Proof.
  intros H a b Ha Hb.
  assert (Hlen : 0 < INR (List.length xs)).
  { apply lt_0_INR. destruct xs; [contradiction | simpl; lia]. }
  set (n := INR (List.length xs)) in *.
  assert (Hz : Rsum (map (fun x => (x - Rsum xs / n) * (x - Rsum xs / n)) xs) = 0).
  { rewrite squared_deviations. fold n.
    replace (dot xs xs - 2 * (Rsum xs / n) * Rsum xs + n * (Rsum xs / n * (Rsum xs / n)))
      with ((n * dot xs xs - Rsum xs * Rsum xs) / n) by (field; lra).
    rewrite H. unfold Rdiv. lra. }
  rewrite (squares_sum_zero _ _ Hz a Ha), (squares_sum_zero _ _ Hz b Hb). reflexivity.
Qed.

Lemma varying_full_rank (xs : list R) :
  varying xs ->
  dot xs xs <> 0 /\ INR (List.length xs) * dot xs xs - Rsum xs * Rsum xs <> 0.
Proof.
  intros [a [b [Ha [Hb Hab]]]]. split; intros H; apply Hab.
  - rewrite (dot_self_zero xs H a Ha), (dot_self_zero xs H b Hb). reflexivity.
  - exact (determinant_zero_constant xs H a b Ha Hb).
Qed.

(** On finite data of full rank [np.polyfit] returns the least-squares line. *)
Lemma polyfit1_full_rank (xs ys : list R) :
  List.length xs = List.length ys -> varying xs ->
  polyfit1 lstsq_nonfinite (map Fin xs) (map Fin ys)
  = let n := INR (List.length xs) in
    let slope := (n * dot xs ys - Rsum xs * Rsum ys)
                 / (n * dot xs xs - Rsum xs * Rsum xs) in
    Ok (Fin slope, Fin ((Rsum ys - slope * Rsum xs) / n)).
Proof.
  intros Hlen Hv. destruct (varying_full_rank xs Hv) as [H1 H2].
  unfold polyfit1. rewrite !length_map, Hlen, Nat.eqb_refl.
  destruct (List.length ys =? 0)%nat eqn:E.
  - apply Nat.eqb_eq in E. destruct Hv as [a [_ [Ha _]]].
    destruct xs; [contradiction | simpl in Hlen; lia].
  - cbn [negb]. rewrite !finites_fin, <- Hlen.
    destruct (Req_dec_T (dot xs xs) 0) as [H | _]; [contradiction|].
    destruct (Req_dec_T (INR (List.length xs) * dot xs xs - Rsum xs * Rsum xs) 0)
      as [H | _]; [contradiction|].
    reflexivity.
Qed.

Lemma dot_zeros_r (xs : list R) : dot xs (repeat 0 (List.length xs)) = 0.
Proof. induction xs as [|x xs IH]; simpl; [reflexivity|]. rewrite IH. lra. Qed.

Lemma polyfit1_empty (y : list npfloat) :
  polyfit1 lstsq_nonfinite [] y = Raise TypeError.
Proof. reflexivity. Qed.

(** ** Alignment *)

Lemma in_matching_rows (d : date) (r : Series) (d' : date) (b : npfloat) :
  In (d', b) (filter (fun '(d'', _) => Z.eqb d d'') r) <-> d' = d /\ In (d, b) r.
Proof.
  rewrite filter_In. split.
  - intros [Hin Heq]. apply Z.eqb_eq in Heq. subst. now split.
  - intros [-> Hin]. split; [assumption | apply Z.eqb_refl].
Qed.

Lemma in_inner_join (l r : Series) (d : date) (a b : npfloat) :
  In (d, (a, b)) (inner_join l r) <-> In (d, a) l /\ In (d, b) r.
Proof.
  induction l as [|[d0 a0] l IH]; simpl.
  - tauto.
  - rewrite in_app_iff, IH, in_map_iff. split.
    + intros [[[d' b'] [Heq Hin]] | [H1 H2]].
      * inversion Heq; subst. apply in_matching_rows in Hin. tauto.
      * tauto.
    + intros [[Heq | Hin] Hr].
      * inversion Heq; subst. left. exists (d, b). split; [reflexivity|].
        now apply in_matching_rows.
      * tauto.
Qed.

Lemma has_date_in (s : Series) (d : date) : has_date s d = true <-> In d (index s).
Proof.
  unfold has_date. rewrite existsb_exists. split.
  - intros [x [Hin Heq]]. apply Z.eqb_eq in Heq. now subst.
  - intros H. exists d. split; [assumption | apply Z.eqb_refl].
Qed.

Lemma no_matching_rows (d : date) (r : Series) :
  has_date r d = false -> filter (fun '(d', _) => Z.eqb d d') r = [].
Proof.
  unfold has_date, index. induction r as [|[d' b] r IH]; simpl; [reflexivity|].
  intros H. apply orb_false_iff in H. destruct H as [H1 H2].
  rewrite H1. now apply IH.
Qed.

Lemma matching_rows_filter (q : date -> bool) (d : date) (r : Series) :
  q d = true ->
  filter (fun '(d', _) => Z.eqb d d') (filter (fun '(d', _) => q d') r)
  = filter (fun '(d', _) => Z.eqb d d') r.
Proof.
  intros Hq. induction r as [|[d' b] r IH]; simpl; [reflexivity|].
  destruct (Z.eqb d d') eqn:E.
  - apply Z.eqb_eq in E. subst d'. rewrite Hq. simpl. rewrite Z.eqb_refl. now rewrite IH.
  - destruct (q d'); simpl; [rewrite E|]; apply IH.
Qed.

Lemma inner_join_restrict_left (l r : Series) :
  inner_join (restrict_to r l) r = inner_join l r.
Proof.
  unfold restrict_to. induction l as [|[d a] l IH]; simpl; [reflexivity|].
  destruct (has_date r d) eqn:E; simpl.
  - now rewrite IH.
  - rewrite (no_matching_rows d r E). simpl. apply IH.
Qed.

Lemma inner_join_filter_right (q : date -> bool) (l r : Series) :
  (forall d, In d (index l) -> q d = true) ->
  inner_join l (filter (fun '(d', _) => q d') r) = inner_join l r.
Proof.
  induction l as [|[d a] l IH]; simpl; intros H; [reflexivity|].
  rewrite matching_rows_filter by (apply H; now left).
  rewrite IH by (intros d' Hd'; apply H; now right). reflexivity.
Qed.

(** Rows whose date the other series lacks can be dropped from either
    side: the merged frame is the same. *)
Lemma inner_join_restrict (l r : Series) :
  inner_join (restrict_to r l) (restrict_to l r) = inner_join l r.
Proof.
  unfold restrict_to at 2. rewrite inner_join_filter_right.
  - apply inner_join_restrict_left.
  - intros d Hd. apply has_date_in. unfold restrict_to, index in Hd.
    apply in_map_iff in Hd. destruct Hd as [[d' a] [Heq Hin]]. simpl in Heq. subst d'.
    apply filter_In in Hin. destruct Hin as [Hin _].
    unfold index. apply in_map_iff. now exists (d, a).
Qed.

Lemma unique_matching_row (d : date) (b : npfloat) (r : Series) :
  NoDup (index r) -> In (d, b) r ->
  filter (fun '(d', _) => Z.eqb d d') r = [(d, b)].
Proof.
  induction r as [|[d' b'] r IH]; simpl; intros Hnd Hin; [contradiction|].
  inversion Hnd as [|? ? Hnotin Hnd']; subst.
  destruct Hin as [Heq | Hin].
  - inversion Heq; subst. rewrite Z.eqb_refl. f_equal.
    apply no_matching_rows. destruct (has_date r d) eqn:E; [|reflexivity].
    apply has_date_in in E. contradiction.
  - destruct (Z.eqb d d') eqn:E.
    + apply Z.eqb_eq in E. subst d'. exfalso. apply Hnotin.
      unfold index. apply in_map_iff. now exists (d, b).
    + now apply IH.
Qed.

Lemma inner_join_sub (l r : Series) :
  NoDup (index r) -> incl l r ->
  inner_join l r = map (fun '(d, v) => (d, (v, v))) l.
Proof.
  intros Hnd. induction l as [|[d a] l IH]; simpl; intros Hincl; [reflexivity|].
  rewrite (unique_matching_row d a r Hnd) by (apply Hincl; now left).
  simpl. f_equal. apply IH. intros x Hx. apply Hincl. now right.
Qed.

(** A series with distinct dates merged with itself: every row once. *)
Lemma inner_join_self (s : Series) :
  NoDup (index s) -> inner_join s s = map (fun '(d, v) => (d, (v, v))) s.
Proof. intros H. apply inner_join_sub; [assumption | apply incl_refl]. Qed.

Lemma columns_of_diagonal (s : Series) :
  left_column (map (fun '(d, v) => (d, (v, v))) s) = s /\
  right_column (map (fun '(d, v) => (d, (v, v))) s) = s.
Proof.
  unfold left_column, right_column. rewrite !map_map.
  split; (rewrite <- (map_id s) at 2; apply map_ext; now intros [d v]).
Qed.

(** With distinct benchmark dates the merged frame has one row per shared
    date. *)
Lemma inner_join_length (l r : Series) :
  NoDup (index r) ->
  List.length (inner_join l r) = List.length (shared_dates l r).
Proof.
  intros Hnd. unfold shared_dates. induction l as [|[d a] l IH]; simpl; [reflexivity|].
  rewrite length_app, length_map, IH.
  destruct (has_date r d) eqn:E.
  - apply has_date_in in E. unfold index in E. apply in_map_iff in E.
    destruct E as [[d' b] [Heq Hin]]. simpl in Heq. subst d'.
    now rewrite (unique_matching_row d b r Hnd Hin).
  - now rewrite (no_matching_rows d r E).
Qed.

(** ** The beta calculator *)

(** Past the shortcut and the two fetches, [calculate_beta] is the
    regression on the two fetched series, with any exception turned into
    the generic message and None. *)
Lemma calculate_beta_regression
    (ticker : string) (l l1 : Log) (stock_data spy_data : Series) (df : DataFrame) :
  ticker <> "SPY" ->
  get_historical_data ticker l = (Ok (Some stock_data), l1) ->
  provider l1 "SPY" selected_time_period = DownloadFrame df ->
  df_column "Adj Close" df = Some spy_data ->
  spy_data <> [] ->
  calculate_beta ticker l =
  match beta_regression lstsq_nonfinite stock_data spy_data with
  | Ok beta => (Ok (Some beta), l1 ++ [Download "SPY" selected_time_period])
  | Raise _ =>
      (Ok None, l1 ++ [Download "SPY" selected_time_period; StError (BetaFailed ticker)])
  end.
Proof.
  intros Hne Hfetch Hspy Hcol Hnonempty.
  unfold calculate_beta, try_except, bind.
  destruct (String.eqb ticker "SPY") eqn:E; [apply String.eqb_eq in E; contradiction|].
  rewrite Hfetch. unfold yf_download. rewrite Hspy.
  unfold lift, df_getitem. rewrite Hcol.
  destruct spy_data as [|row spy_data]; [contradiction|].
  cbn [List.length Nat.eqb].
  destruct (beta_regression lstsq_nonfinite stock_data (row :: spy_data)) as [beta | e].
  - reflexivity.
  - unfold st_error, emit, ret. now rewrite <- app_assoc.
Qed.

Lemma strongly_sorted_filter {A} (before : A -> A -> Prop) (f : A -> bool) (l : list A) :
  StronglySorted before l -> StronglySorted before (filter f l).
Proof.
  induction 1 as [|x l Hs IH Hall]; simpl; [constructor|].
  destruct (f x); [|assumption].
  constructor; [assumption|].
  rewrite Forall_forall in *. intros y Hy. apply filter_In in Hy. now apply Hall.
Qed.

Lemma sorted_dates_distinct (l : list date) : StronglySorted Z.lt l -> NoDup l.
Proof.
  induction 1 as [|d l Hs IH Hall]; constructor; [|assumption].
  intros Hin. rewrite Forall_forall in Hall. specialize (Hall d Hin). lia.
Qed.

Lemma sorted_rows (s : Series) : StronglySorted Z.lt (index s) -> StronglySorted earlier s.
Proof.
  induction s as [|[d v] s IH]; intros H; [constructor|].
  inversion H as [|? ? Hs Hall]; subst. constructor; [now apply IH|].
  rewrite Forall_forall in *. intros [d' v'] Hin. apply Hall.
  unfold index. apply in_map_iff. now exists (d', v').
Qed.

(** Two series in date order with the same rows are the same series. *)
Lemma sorted_rows_ext (s t : Series) :
  StronglySorted earlier s -> StronglySorted earlier t ->
  (forall row, In row s <-> In row t) -> s = t.
Proof.
  intros Hs. revert t. induction Hs as [|x s Hs IH Hx]; intros t Ht Hiff.
  - destruct t as [|y t]; [reflexivity|]. destruct (proj2 (Hiff y) (or_introl eq_refl)).
  - destruct Ht as [|y t Ht Hy].
    { destruct (proj1 (Hiff x) (or_introl eq_refl)). }
    rewrite Forall_forall in Hx, Hy.
    assert (Exy : x = y).
    { destruct (proj1 (Hiff x) (or_introl eq_refl)) as [E | Hin]; [now symmetry|].
      destruct (proj2 (Hiff y) (or_introl eq_refl)) as [E | Hin']; [assumption|].
      pose proof (Hy x Hin) as H1. pose proof (Hx y Hin') as H2.
      unfold earlier in H1, H2. lia. }
    subst y. f_equal. apply IH; [assumption|].
    intros row. split; intros Hin.
    + destruct (proj1 (Hiff row) (or_intror Hin)) as [E | Hin']; [|assumption].
      subst row. pose proof (Hx x Hin) as H1. unfold earlier in H1. lia.
    + destruct (proj2 (Hiff row) (or_intror Hin)) as [E | Hin']; [|assumption].
      subst row. pose proof (Hy x Hin) as H1. unfold earlier in H1. lia.
Qed.

Lemma in_restrict_to (a b : Series) (d : date) (v : npfloat) :
  In (d, v) (restrict_to b a) <-> In (d, v) a /\ In d (index b).
Proof. unfold restrict_to. now rewrite filter_In, has_date_in. Qed.

Lemma inner_join_index (l r : Series) :
  NoDup (index r) -> map fst (inner_join l r) = shared_dates l r.
Proof.
  intros Hnd. unfold shared_dates. induction l as [|[d a] l IH]; simpl; [reflexivity|].
  rewrite map_app, map_map, IH.
  destruct (has_date r d) eqn:Ed.
  - apply has_date_in in Ed. unfold index in Ed. apply in_map_iff in Ed.
    destruct Ed as [[d' b] [Heq Hin]]. simpl in Heq. subst d'.
    now rewrite (unique_matching_row d b r Hnd Hin).
  - now rewrite (no_matching_rows d r Ed).
Qed.

(** The stock column of the merged frame: the stock rows of shared dates. *)
Lemma left_column_inner_join (l r : Series) :
  NoDup (index r) -> left_column (inner_join l r) = restrict_to r l.
Proof.
  intros Hnd. unfold left_column, restrict_to.
  induction l as [|[d a] l IH]; simpl; [reflexivity|].
  rewrite map_app, map_map, IH.
  destruct (has_date r d) eqn:Ed.
  - apply has_date_in in Ed. unfold index in Ed. apply in_map_iff in Ed.
    destruct Ed as [[d' b] [Heq Hin]]. simpl in Heq. subst d'.
    now rewrite (unique_matching_row d b r Hnd Hin).
  - now rewrite (no_matching_rows d r Ed).
Qed.

(** The benchmark column of the merged frame: the benchmark rows of shared
    dates, when both series are in date order. *)
Lemma right_column_inner_join (l r : Series) :
  StronglySorted Z.lt (index l) -> StronglySorted Z.lt (index r) ->
  right_column (inner_join l r) = restrict_to l r.
Proof.
  intros Hl Hr. pose proof (sorted_dates_distinct _ Hr) as Hnd.
  apply sorted_rows_ext.
  - apply sorted_rows.
    replace (index (right_column (inner_join l r))) with (map fst (inner_join l r)).
    + rewrite (inner_join_index l r Hnd). now apply strongly_sorted_filter.
    + unfold index, right_column. rewrite map_map. apply map_ext. now intros [d [a b]].
  - unfold restrict_to. apply strongly_sorted_filter. now apply sorted_rows.
  - intros [d b]. rewrite in_restrict_to. unfold right_column. rewrite in_map_iff. split.
    + intros [[d' [a b']] [Heq Hin]]. injection Heq as -> ->.
      apply in_inner_join in Hin. destruct Hin as [Ha Hb]. split; [assumption|].
      unfold index. apply in_map_iff. now exists (d, a).
    + intros [Hb Hd]. unfold index in Hd. apply in_map_iff in Hd.
      destruct Hd as [[d' a] [Heq Ha]]. simpl in Heq. subst d'.
      exists (d, (a, b)). split; [reflexivity|]. now apply in_inner_join.
Qed.

(** C6. In [calculate_beta] the stock and benchmark series (each in date
    order) are inner-joined on date before any log-return is taken.  A row
    of the merged frame pairs a stock row and a benchmark row of the same
    date, and every such pair is a row; so the stock column of the merged
    frame is the stock series without the rows whose date the benchmark
    lacks, and the benchmark column is the benchmark series without the
    rows whose date the stock lacks.  The fit is run on the log-returns of
    these two columns: that is what the regression path returns the slope
    of, and what [calculate_beta] returns for a ticker other than SPY whose
    two fetches succeed.  A row of a date that only one series has is in
    neither column. *)
Theorem beta_uses_shared_dates_only (stock_data spy_data : Series) :
  StronglySorted Z.lt (index stock_data) ->
  StronglySorted Z.lt (index spy_data) ->
  (forall d a b,
      In (d, (a, b)) (inner_join stock_data spy_data)
      <-> In (d, a) stock_data /\ In (d, b) spy_data) /\
  left_column (inner_join stock_data spy_data) = restrict_to spy_data stock_data /\
  right_column (inner_join stock_data spy_data) = restrict_to stock_data spy_data /\
  (forall d v,
      In (d, v) (restrict_to spy_data stock_data)
      <-> In (d, v) stock_data /\ In d (index spy_data)) /\
  (forall d v,
      In (d, v) (restrict_to stock_data spy_data)
      <-> In (d, v) spy_data /\ In d (index stock_data)) /\
  beta_regression lstsq_nonfinite stock_data spy_data
  = match polyfit1 lstsq_nonfinite
            (values (log_returns (restrict_to stock_data spy_data)))
            (values (log_returns (restrict_to spy_data stock_data))) with
    | Ok (slope, _) => Ok slope
    | Raise e => Raise e
    end /\
  (forall ticker l l1 df,
      ticker <> "SPY" ->
      get_historical_data ticker l = (Ok (Some stock_data), l1) ->
      provider l1 "SPY" selected_time_period = DownloadFrame df ->
      df_column "Adj Close" df = Some spy_data ->
      spy_data <> [] ->
      calculate_beta ticker l =
      match polyfit1 lstsq_nonfinite
              (values (log_returns (restrict_to stock_data spy_data)))
              (values (log_returns (restrict_to spy_data stock_data))) with
      | Ok (slope, _) => (Ok (Some slope), l1 ++ [Download "SPY" selected_time_period])
      | Raise _ =>
          (Ok None,
           l1 ++ [Download "SPY" selected_time_period; StError (BetaFailed ticker)])
      end).
Proof.
  intros Hstock Hspy.
  pose proof (left_column_inner_join stock_data spy_data (sorted_dates_distinct _ Hspy)) as El.
  pose proof (right_column_inner_join stock_data spy_data Hstock Hspy) as Er.
  assert (E : beta_regression lstsq_nonfinite stock_data spy_data
              = match polyfit1 lstsq_nonfinite
                        (values (log_returns (restrict_to stock_data spy_data)))
                        (values (log_returns (restrict_to spy_data stock_data))) with
                | Ok (slope, _) => Ok slope
                | Raise e => Raise e
                end).
  { unfold beta_regression. now rewrite El, Er. }
  split; [|split; [|split; [|split; [|split; [|split]]]]].
  - intros d a b. apply in_inner_join.
  - exact El.
  - exact Er.
  - intros d v. apply in_restrict_to.
  - intros d v. apply in_restrict_to.
  - exact E.
  - intros ticker l l1 df Hne Hfetch Hprov Hcol Hnonempty.
    rewrite (calculate_beta_regression ticker l l1 stock_data spy_data df) by assumption.
    rewrite E.
    destruct (polyfit1 lstsq_nonfinite
                (values (log_returns (restrict_to stock_data spy_data)))
                (values (log_returns (restrict_to spy_data stock_data))))
      as [[slope intercept] | e]; reflexivity.
Qed.

Lemma log_returns_short (s : Series) :
  (List.length s < 2)%nat -> values (log_returns s) = [].
Proof.
  intros H. destruct s as [|row [|row' s]].
  - reflexivity.
  - now apply log_returns_single.
  - simpl in H. lia.
Qed.

Lemma beta_regression_short (stock_data spy_data : Series) :
  (List.length (inner_join stock_data spy_data) < 2)%nat ->
  beta_regression lstsq_nonfinite stock_data spy_data = Raise TypeError.
Proof.
  intros H. unfold beta_regression.
  rewrite (log_returns_short (right_column _)).
  - reflexivity.
  - unfold right_column. now rewrite length_map.
Qed.

(** C10. For a ticker other than SPY whose fetched series shares fewer than
    two dates with the fetched (non-empty, distinctly dated) benchmark
    series, the fit fails inside [calculate_beta]: the function logs the
    generic error for that ticker after the SPY download and returns None;
    no exception escapes. *)
Theorem beta_fails_on_short_overlap
    (ticker : string) (l l1 : Log) (stock_data spy_data : Series) (df : DataFrame) :
  ticker <> "SPY" ->
  get_historical_data ticker l = (Ok (Some stock_data), l1) ->
  provider l1 "SPY" selected_time_period = DownloadFrame df ->
  df_column "Adj Close" df = Some spy_data ->
  spy_data <> [] ->
  NoDup (index spy_data) ->
  (List.length (shared_dates stock_data spy_data) < 2)%nat ->
  calculate_beta ticker l
  = (Ok None, l1 ++ [Download "SPY" selected_time_period; StError (BetaFailed ticker)]).
Proof.
  intros Hne Hfetch Hspy Hcol Hnonempty Hnd Hshared.
  rewrite (calculate_beta_regression ticker l l1 stock_data spy_data df) by assumption.
  rewrite beta_regression_short; [reflexivity|].
  now rewrite inner_join_length.
Qed.

Lemma varying_map_fin (rs : list R) : varying (map Fin rs) -> varying rs.
Proof.
  intros [a [b [Ha [Hb Hab]]]].
  apply in_map_iff in Ha. destruct Ha as [x [Hx Hinx]].
  apply in_map_iff in Hb. destruct Hb as [y [Hy Hiny]].
  exists x, y. repeat split; try assumption. intros ->. apply Hab. congruence.
Qed.






Lemma constant_list {A} (x : A) (l : list A) :
  (forall v, In v l -> v = x) -> l = repeat x (List.length l).
Proof.
  induction l as [|a l IH]; intros H; simpl; [reflexivity|].
  rewrite (H a) by now left. f_equal. apply IH. intros v Hv. apply H. now right.
Qed.

Lemma positive_prices_reals (s : Series) :
  positive_prices s -> exists p, values s = map Fin p /\ Forall (Rlt 0) p.
Proof.
  unfold positive_prices. induction (values s) as [|v vs IH]; intros H.
  - exists []. split; [reflexivity | constructor].
  - inversion H as [|? ? [r [Hr Hpos]] Hrest]; subst.
    destruct (IH Hrest) as [p [Hp Hall]].
    exists (r :: p). split; [simpl; now rewrite Hp | now constructor].
Qed.

Lemma in_right_column (l r : Series) (v : npfloat) :
  In v (values (right_column (inner_join l r))) -> In v (values r).
Proof.
  unfold values, right_column. rewrite map_map. intros H.
  apply in_map_iff in H. destruct H as [[d [a b]] [Heq Hin]]. simpl in Heq. subst b.
  apply in_inner_join in Hin. apply in_map_iff. now exists (d, v).
Qed.

Lemma in_left_column (l r : Series) (v : npfloat) :
  In v (values (left_column (inner_join l r))) -> In v (values l).
Proof.
  unfold values, left_column. rewrite map_map. intros H.
  apply in_map_iff in H. destruct H as [[d [a b]] [Heq Hin]]. simpl in Heq. subst a.
  apply in_inner_join in Hin. apply in_map_iff. now exists (d, v).
Qed.

Lemma columns_length (m : MergedFrame) :
  List.length (values (left_column m)) = List.length m /\
  List.length (values (right_column m)) = List.length m.
Proof. unfold values, left_column, right_column. now rewrite !length_map. Qed.

(** A constant stock regressed on varying benchmark returns has slope 0. *)
Lemma beta_regression_constant (c : R) (stock_data spy_data : Series) :
  0 < c ->
  (forall v, In v (values stock_data) -> v = Fin c) ->
  positive_prices spy_data ->
  varying (values (log_returns (right_column (inner_join stock_data spy_data)))) ->
  beta_regression lstsq_nonfinite stock_data spy_data = Ok (Fin 0).
Proof.
  intros Hc Hconst Hpos Hv. unfold beta_regression.
  set (m := inner_join stock_data spy_data) in *.
  destruct (columns_length m) as [Hl Hr].
  assert (Hright : positive_prices (right_column m)).
  { unfold positive_prices in *. rewrite Forall_forall in *.
    intros v Hin. apply Hpos. now apply (in_right_column stock_data spy_data). }
  destruct (positive_prices_reals _ Hright) as [q [Hq Hqpos]].
  assert (Hleft : values (left_column m) = map Fin (repeat c (List.length m))).
  { rewrite map_repeat, <- Hl. apply constant_list. intros v Hin.
    apply Hconst. now apply (in_left_column stock_data spy_data). }
  destruct q as [|q0 q].
  { rewrite values_log_returns, Hq in Hv. destruct Hv as [a [_ [Ha _]]]. destruct Ha. }
  assert (Hlen : List.length m = S (List.length q)).
  { rewrite <- Hr, Hq. simpl. now rewrite length_map. }
  rewrite Hlen in Hleft. cbn [repeat] in Hleft.
  assert (Hcpos : Forall (Rlt 0) (c :: repeat c (List.length q))).
  { apply Forall_forall. intros x [Hx | Hx]; [now subst|].
    apply repeat_spec in Hx. now subst. }
  rewrite (values_log_returns_positive _ q0 q Hq Hqpos) in *.
  rewrite (values_log_returns_positive _ c _ Hleft Hcpos).
  rewrite log_ratios_constant by assumption.
  apply varying_map_fin in Hv.
  rewrite <- (log_ratios_after_length q0 q).
  rewrite (polyfit1_full_rank _ _ (eq_sym (repeat_length _ _)) Hv). cbv zeta.
  rewrite dot_zeros_r, Rsum_zeros.
  do 2 f_equal. unfold Rdiv. lra.
Qed.

(** C8. A constant series of a positive price, of length at least 2, has
    average annual return 0; regressed against a benchmark of positive
    prices whose aligned log-returns vary, its beta is 0. *)
Theorem constant_series_zero (c : R) (n : nat) (stock_data : Series) :
  0 < c ->
  (2 <= n)%nat ->
  values stock_data = map Fin (repeat c n) ->
  (forall ticker l l',
      get_historical_data ticker l = (Ok (Some stock_data), l') ->
      calculate_average_annual_return ticker l = (Ok (Some (Fin 0)), l')) /\
  (forall spy_data,
      positive_prices spy_data ->
      varying (values (log_returns (right_column (inner_join stock_data spy_data)))) ->
      beta_regression lstsq_nonfinite stock_data spy_data = Ok (Fin 0)).
Proof.
  intros Hc Hn Hs. split.
  - intros ticker l l' H. rewrite (average_annual_return_of_fetch _ _ _ _ H).
    simpl. now rewrite (annualise_constant stock_data c n Hc Hn Hs).
  - intros spy_data Hpos Hv. apply (beta_regression_constant c); try assumption.
    intros v Hin. rewrite Hs in Hin. apply in_map_iff in Hin.
    destruct Hin as [x [Hx Hin]]. apply repeat_spec in Hin. now subst.
Qed.

(** ** What each function adds to the log *)

Lemma downloads_app (a b : Log) : downloads (a ++ b) = downloads a ++ downloads b.
Proof.
  induction a as [|e a IH]; simpl; [reflexivity|].
  destruct e; simpl; now rewrite IH.
Qed.

Lemma beta_lines_app (a b : Log) : beta_lines (a ++ b) = beta_lines a ++ beta_lines b.
Proof.
  induction a as [|e a IH]; simpl; [reflexivity|].
  destruct e as [| |[]|]; simpl; now rewrite IH.
Qed.

Lemma has_chart_app (a b : Log) : has_chart (a ++ b) = has_chart a || has_chart b.
Proof. unfold has_chart. apply existsb_app. Qed.

Lemma count_downloads_app (t : string) (a b : Log) :
  count_downloads t (a ++ b) = (count_downloads t a + count_downloads t b)%nat.
Proof. unfold count_downloads. now rewrite downloads_app, filter_app, length_app. Qed.

Lemma fetch_events_quiet (e : Log) :
  forallb fetch_event e = true -> beta_lines e = [] /\ has_chart e = false.
Proof.
  induction e as [|x e IH]; simpl; [now split|].
  intros H. apply andb_true_iff in H. destruct H as [Hx He].
  destruct (IH He) as [H1 H2].
  destruct x as [| |[]|]; try discriminate Hx; simpl; now split.
Qed.

(** The fetcher: never an exception, one provider call for a non-empty
    ticker whatever the log already holds, none for the empty ticker. *)
Lemma get_historical_data_log (ticker : string) (l : Log) :
  exists v e,
    get_historical_data ticker l = (Ok v, l ++ e) /\
    forallb fetch_event e = true /\
    downloads e = if String.eqb ticker "" then [] else [(ticker, selected_time_period)].
Proof.
  rewrite get_historical_data_eq.
  destruct (String.eqb ticker "").
  - exists None, []. now rewrite app_nil_r.
  - cbv zeta. destruct (provider l ticker selected_time_period) as [|df].
    + eexists _, _. rewrite <- app_assoc. repeat split.
    + destruct (df_empty df).
      * eexists _, _. rewrite <- app_assoc. repeat split.
      * destruct (df_column "Adj Close" df).
        -- eexists _, _. repeat split.
        -- eexists _, _. rewrite <- app_assoc. repeat split.
Qed.

Lemma calculate_average_annual_return_log (ticker : string) (l : Log) :
  exists v e,
    calculate_average_annual_return ticker l = (Ok v, l ++ e) /\
    forallb fetch_event e = true /\
    downloads e = if String.eqb ticker "" then [] else [(ticker, selected_time_period)].
Proof.
  destruct (get_historical_data_log ticker l) as [v [e [H [Hq Hd]]]].
  exists (option_map annualise v), e.
  split; [now apply average_annual_return_of_fetch | now split].
Qed.

(** The beta calculator: never an exception; it calls the provider for the
    ticker itself (unless that is SPY or empty) and then at most once for
    SPY. *)
Lemma calculate_beta_log (ticker : string) (l : Log) :
  exists v e k,
    calculate_beta ticker l = (Ok v, l ++ e) /\
    forallb fetch_event e = true /\
    (k <= 1)%nat /\
    downloads e
    = (if String.eqb ticker "SPY" || String.eqb ticker "" then []
       else [(ticker, selected_time_period)])
      ++ repeat ("SPY", selected_time_period) k.
Proof.
  unfold calculate_beta, try_except, bind.
  destruct (String.eqb ticker "SPY") eqn:Espy.
  { exists (Some (Fin 1)), [], 0%nat. rewrite app_nil_r. repeat split. lia. }
  destruct (get_historical_data_log ticker l) as [v [e [H [Hq Hd]]]].
  rewrite H. cbn [orb].
  destruct v as [stock_data|].
  2:{ exists None, e, 0%nat. cbn [repeat]. rewrite app_nil_r. repeat split; try assumption. lia. }
  assert (Ee : String.eqb ticker "" = false).
  { destruct (String.eqb ticker "") eqn:E; [|reflexivity].
    apply String.eqb_eq in E. subst ticker.
    rewrite get_historical_data_eq in H. simpl in H. discriminate H. }
  rewrite Ee in Hd |- *. pose proof Hd as Hd'.
  unfold yf_download, lift, df_getitem, st_error, emit, ret.
  destruct (provider (l ++ e) "SPY" selected_time_period) as [|df];
    [|destruct (df_column "Adj Close" df) as [spy_data|];
      [destruct (List.length spy_data =? 0)%nat;
       [|destruct (beta_regression lstsq_nonfinite stock_data spy_data) as [beta | x]]|]];
    (eexists _, (e ++ _), 1%nat; rewrite <- !app_assoc;
     split; [reflexivity|]; split; [|split; [lia|]];
     [rewrite forallb_app, Hq; reflexivity | rewrite downloads_app, Hd'; reflexivity]).
Qed.

(** One iteration: both calculators run, the lists are updated from their
    results and one line is written. *)
Lemma loop_body_log (ticker : string) (acc : Lists) (l : Log) :
  exists ret_ beta_ e1 e2 k,
    calculate_average_annual_return ticker l = (Ok ret_, l ++ e1) /\
    calculate_beta ticker (l ++ e1) = (Ok beta_, (l ++ e1) ++ e2) /\
    loop_body ticker acc l
    = (Ok (record_results ticker ret_ beta_ acc),
       ((l ++ e1) ++ e2) ++ [StWrite (beta_text ticker beta_)]) /\
    forallb fetch_event (e1 ++ e2) = true /\
    (k <= 1)%nat /\
    downloads (e1 ++ e2)
    = (if String.eqb ticker "" then [] else [(ticker, selected_time_period)])
      ++ (if String.eqb ticker "SPY" || String.eqb ticker "" then []
          else [(ticker, selected_time_period)])
      ++ repeat ("SPY", selected_time_period) k.
Proof.
  destruct (calculate_average_annual_return_log ticker l) as [r [e1 [H1 [Hq1 Hd1]]]].
  destruct (calculate_beta_log ticker (l ++ e1)) as [b [e2 [k [H2 [Hq2 [Hk Hd2]]]]]].
  exists r, b, e1, e2, k. split; [assumption|]. split; [assumption|].
  split; [|split; [|split]].
  - unfold loop_body, bind. rewrite H1, H2.
    unfold record_results, beta_text, st_write, emit, ret.
    destruct b as [beta|]; [|reflexivity].
    destruct (negb (String.eqb ticker "SPY")); reflexivity.
  - now rewrite forallb_app, Hq1, Hq2.
  - assumption.
  - now rewrite downloads_app, Hd1, Hd2.
Qed.

Lemma beta_text_lines (ticker : string) (beta_ : option npfloat) :
  beta_lines [StWrite (beta_text ticker beta_)] = []
  \/ exists beta, beta_ = Some beta /\ ticker <> "SPY" /\
                  beta_lines [StWrite (beta_text ticker beta_)] = [(ticker, beta)].
Proof.
  destruct beta_ as [beta|]; [|now left]. unfold beta_text.
  destruct (String.eqb ticker "SPY") eqn:E; [now left|].
  right. exists beta. repeat split. intros ->. discriminate E.
Qed.

Lemma record_results_betas (ticker : string) (ret_ beta_ : option npfloat) (acc : Lists) :
  individual_betas (record_results ticker ret_ beta_ acc)
  = individual_betas acc ++ map snd (beta_lines [StWrite (beta_text ticker beta_)]).
Proof.
  unfold record_results, beta_text.
  destruct ret_, beta_ as [beta|]; try destruct (negb (String.eqb ticker "SPY"));
    simpl; now rewrite ?app_nil_r.
Qed.

Lemma record_results_valid (ticker : string) (ret_ beta_ : option npfloat) (acc : Lists) :
  valid_tickers (record_results ticker ret_ beta_ acc)
  = valid_tickers acc ++ (match ret_ with Some _ => [ticker] | None => [] end).
Proof.
  unfold record_results.
  destruct ret_, beta_ as [beta|]; try destruct (negb (String.eqb ticker "SPY"));
    simpl; now rewrite ?app_nil_r.
Qed.

(** The whole loop: no exception, no chart; the betas it collects are the
    ones it wrote a beta line for, none of them for SPY; the valid tickers
    are entered tickers. *)
Lemma ticker_loop_log (tickers : list string) (acc : Lists) (l : Log) :
  exists acc' e,
    ticker_loop tickers acc l = (Ok acc', l ++ e) /\
    has_chart e = false /\
    individual_betas acc' = individual_betas acc ++ map snd (beta_lines e) /\
    (forall t b, In (t, b) (beta_lines e) -> t <> "SPY" /\ In t tickers) /\
    exists vs, valid_tickers acc' = valid_tickers acc ++ vs /\ incl vs tickers.
Proof.
  revert acc l. induction tickers as [|t tickers IH]; intros acc l.
  - exists acc, []. rewrite !app_nil_r. repeat split; try easy.
    exists []. now rewrite app_nil_r.
  - destruct (loop_body_log t acc l) as [r [b [e1 [e2 [k [_ [_ [H [Hq _]]]]]]]]].
    destruct (fetch_events_quiet _ Hq) as [Hb Hc].
    set (w := [StWrite (beta_text t b)]) in *.
    destruct (IH (record_results t r b acc) (((l ++ e1) ++ e2) ++ w))
      as [acc' [e [H' [Hc' [Hb' [Hspy [vs [Hv Hincl]]]]]]]].
    exists acc', ((e1 ++ e2) ++ w ++ e).
    cbn [ticker_loop]. unfold bind. rewrite H, H'.
    split; [now rewrite <- !app_assoc|].
    split.
    { rewrite (has_chart_app (e1 ++ e2)), Hc, has_chart_app, Hc'. subst w. unfold beta_text.
      destruct b; [destruct (negb (String.eqb t "SPY"))|]; reflexivity. }
    split.
    { rewrite Hb', record_results_betas. fold w.
      rewrite (beta_lines_app (e1 ++ e2)), Hb. cbn [app].
      now rewrite beta_lines_app, map_app, <- app_assoc. }
    split.
    { intros t' b'. rewrite (beta_lines_app (e1 ++ e2)), Hb, beta_lines_app.
      cbn [app]. rewrite in_app_iff.
      intros [Hin | Hin].
      - subst w. destruct (beta_text_lines t b) as [E | [beta [_ [Hne E]]]];
          rewrite E in Hin; [destruct Hin|].
        destruct Hin as [Heq | []]. inversion Heq; subst. split; [assumption | now left].
      - destruct (Hspy t' b' Hin). split; [assumption | now right]. }
    exists ((match r with Some _ => [t] | None => [] end) ++ vs). split.
    { now rewrite Hv, record_results_valid, <- app_assoc. }
    intros x Hx. apply in_app_iff in Hx. destruct Hx as [Hx | Hx].
    + destruct r; [|destruct Hx]. destruct Hx as [-> | []]. now left.
    + right. now apply Hincl.
Qed.

(** The chart loop fetches every ticker it is given once more. *)
Lemma add_traces_log (tickers : list string) (i : nat) (fig : Figure) (l : Log) :
  exists fig' e,
    add_traces i tickers fig l = (Ok fig', l ++ e) /\
    forallb fetch_event e = true /\
    downloads e
    = map (fun t => (t, selected_time_period))
          (filter (fun t => negb (String.eqb t "")) tickers).
Proof.
  revert i fig l. induction tickers as [|t tickers IH]; intros i fig l.
  - exists fig, []. now rewrite app_nil_r.
  - cbn [add_traces]. unfold bind.
    destruct (get_historical_data_log t l) as [v [e [H [Hq Hd]]]]. rewrite H.
    assert (Hstep : forall fig0, exists fig' e',
               add_traces (S i) tickers fig0 (l ++ e) = (Ok fig', l ++ e') /\
               forallb fetch_event e' = true /\
               downloads e'
               = map (fun t => (t, selected_time_period))
                     (filter (fun t => negb (String.eqb t "")) (t :: tickers))).
    { intros fig0. destruct (IH (S i) fig0 (l ++ e)) as [fig' [e' [H' [Hq' Hd']]]].
      exists fig', (e ++ e'). rewrite app_assoc. split; [assumption|].
      split; [now rewrite forallb_app, Hq, Hq'|].
      rewrite downloads_app, Hd, Hd'. cbn [filter].
      destruct (String.eqb t ""); reflexivity. }
    destruct v as [data|]; apply Hstep.
Qed.

Lemma visualize_returns_log (tickers : list string) (l : Log) :
  exists fig e,
    visualize_returns tickers l = (Ok tt, (l ++ e) ++ [PlotlyChart fig]) /\
    forallb fetch_event e = true /\
    downloads e
    = map (fun t => (t, selected_time_period))
          (filter (fun t => negb (String.eqb t "")) tickers).
Proof.
  destruct (add_traces_log tickers 0 [] l) as [fig [e [H [Hq Hd]]]].
  exists fig, e. unfold visualize_returns, bind, emit. rewrite H. now split.
Qed.

(** ** The script *)

Lemma chart_condition_iff (acc : Lists) :
  chart_condition acc = true
  <-> individual_betas acc <> [] \/ In "SPY" (valid_tickers acc).
Proof.
  unfold chart_condition. rewrite orb_true_iff, negb_true_iff, Nat.eqb_neq, existsb_exists.
  split; intros [H | H].
  - left. intros E. apply H. now rewrite E.
  - right. destruct H as [x [Hin Heq]]. apply String.eqb_eq in Heq. now subst.
  - left. intros E. apply H. now apply length_zero_iff_nil.
  - right. exists "SPY". split; [assumption | apply String.eqb_refl].
Qed.

(** C9 (amended). Each iteration of the ticker loop runs both calculators,
    records the ticker as valid when its return is not None and records its
    beta (writing the beta line) when the beta is not None and the ticker is
    not SPY.  After the loop the chart renderer is invoked over the valid
    tickers exactly when some beta line for a ticker other than SPY was
    written or SPY is among the valid tickers; otherwise the run ends with
    the no-valid-tickers message and draws no chart. *)
Theorem chart_or_empty_state :
  (forall ticker acc l, exists ret_ beta_ l1 l2,
      calculate_average_annual_return ticker l = (Ok ret_, l1) /\
      calculate_beta ticker l1 = (Ok beta_, l2) /\
      loop_body ticker acc l
      = (Ok (record_results ticker ret_ beta_ acc), l2 ++ [StWrite (beta_text ticker beta_)])) /\
  (forall entries, exists acc l1,
      ticker_loop (collect_tickers entries) (mkLists [] [] []) [] = (Ok acc, l1) /\
      has_chart l1 = false /\
      individual_betas acc = map snd (beta_lines l1) /\
      (forall t b, In (t, b) (beta_lines l1) -> t <> "SPY" /\ In t (collect_tickers entries)) /\
      incl (valid_tickers acc) (collect_tickers entries) /\
      (chart_condition acc = true
       <-> beta_lines l1 <> [] \/ In "SPY" (valid_tickers acc)) /\
      if chart_condition acc then
        exists fig l2,
          visualize_returns (valid_tickers acc) l1 = (Ok tt, l2 ++ [PlotlyChart fig]) /\
          script entries [] = (Ok tt, l2 ++ [PlotlyChart fig]) /\
          has_chart l2 = false
      else
        script entries [] = (Ok tt, l1 ++ [StWrite NoValidTickers]) /\
        has_chart (l1 ++ [StWrite NoValidTickers]) = false).
Proof.
  split.
  - intros ticker acc l.
    destruct (loop_body_log ticker acc l) as [r [b [e1 [e2 [k [H1 [H2 [H _]]]]]]]].
    now exists r, b, (l ++ e1), ((l ++ e1) ++ e2).
  - intros entries.
    destruct (ticker_loop_log (collect_tickers entries) (mkLists [] [] []) [])
      as [acc [e [H [Hc [Hb [Hspy [vs [Hv Hincl]]]]]]]].
    cbn [app individual_betas valid_tickers] in *.
    exists acc, e. split; [assumption|]. split; [assumption|]. split; [assumption|].
    split; [assumption|]. split; [now rewrite Hv|].
    split.
    { rewrite chart_condition_iff, Hb. split; intros [H1 | H1]; try (now right); left.
      - intros E. apply H1. now rewrite E.
      - intros E. apply H1. now apply map_eq_nil in E. }
    unfold script, bind. rewrite H.
    destruct (chart_condition acc).
    + destruct (visualize_returns_log (valid_tickers acc) e) as [fig [e' [H' [Hq _]]]].
      exists fig, (e ++ e'). split; [assumption|]. split; [assumption|].
      rewrite has_chart_app, Hc. now destruct (fetch_events_quiet _ Hq).
    + split; [reflexivity|]. now rewrite has_chart_app, Hc.
Qed.

(** C5 (amended). In a run on the entries AAPL and blank, AAPL is downloaded
    at least twice (once by the return calculator, once by the beta
    calculator) and at most three times (once more by the chart renderer),
    and nothing is downloaded for the blank entry.  Each call of the
    fetcher on a non-empty ticker makes exactly one provider call, whatever
    the log already holds (no cache); a call on the empty ticker makes
    none. *)
Theorem aapl_run_downloads :
  (2 <= count_downloads "AAPL" (snd (script ["AAPL"; ""] [])) <= 3)%nat /\
  count_downloads "" (snd (script ["AAPL"; ""] [])) = 0%nat /\
  (forall ticker l,
      ticker <> "" ->
      downloads (snd (get_historical_data ticker l))
      = downloads l ++ [(ticker, selected_time_period)]) /\
  (forall l, downloads (snd (get_historical_data "" l)) = downloads l).
Proof.
  assert (Hrun : exists k n : nat,
             (k <= 1)%nat /\ (n <= 1)%nat /\
             downloads (snd (script ["AAPL"; ""] []))
             = [("AAPL", selected_time_period); ("AAPL", selected_time_period)]
               ++ repeat ("SPY", selected_time_period) k
               ++ repeat ("AAPL", selected_time_period) n).
  { unfold script, bind. cbn [collect_tickers String.eqb Ascii.eqb Bool.eqb ticker_loop].
    unfold bind.
    destruct (loop_body_log "AAPL" (mkLists [] [] []) [])
      as [r [b [e1 [e2 [k [_ [_ [H [Hq [Hk Hd]]]]]]]]]].
    rewrite H. unfold ret. cbn [app] in *. rewrite downloads_app in Hd.
    exists k.
    destruct (chart_condition (record_results "AAPL" r b (mkLists [] [] []))).
    - destruct (visualize_returns_log
                  (valid_tickers (record_results "AAPL" r b (mkLists [] [] [])))
                  ((e1 ++ e2) ++ [StWrite (beta_text "AAPL" b)]))
        as [fig [e3 [H3 [_ Hd3]]]].
      rewrite H3. cbn [snd]. rewrite record_results_valid in Hd3. cbn [valid_tickers app] in Hd3.
      exists (match r with Some _ => 1%nat | None => 0%nat end).
      split; [assumption|]. split; [destruct r; lia|].
      rewrite !downloads_app, Hd, Hd3. cbn [String.eqb Ascii.eqb Bool.eqb orb].
      destruct r; simpl; now rewrite ?app_nil_r.
    - exists 0%nat. split; [assumption|]. split; [lia|].
      unfold st_write, emit. cbn [snd]. rewrite !downloads_app, Hd.
      cbn [String.eqb Ascii.eqb Bool.eqb orb].
      simpl. now rewrite !app_nil_r. }
  destruct Hrun as [k [n [Hk [Hn Hd]]]].
  split; [|split; [|split]].
  - unfold count_downloads. rewrite Hd.
    destruct k as [|[|k]], n as [|[|n]]; try lia; simpl; lia.
  - unfold count_downloads. rewrite Hd.
    destruct k as [|[|k]], n as [|[|n]]; try lia; reflexivity.
  - intros ticker l Hne.
    destruct (get_historical_data_log ticker l) as [v [e [H [_ Hd']]]].
    rewrite H. cbn [snd]. rewrite downloads_app, Hd'.
    destruct (String.eqb ticker "") eqn:E; [|reflexivity].
    apply String.eqb_eq in E. contradiction.
  - intros l. rewrite get_historical_data_eq. reflexivity.
Qed.

(** * Further properties *)

(** ** Ticker entry *)

(** X1. The input loop keeps the entries before the first blank one, in
    order: the entries are the collected tickers followed by a rest that is
    empty or starts with the blank entry, no collected ticker is blank, and
    collecting again changes nothing. *)
Theorem collect_tickers_stops_at_blank (entries : list string) :
  (exists rest,
      entries = collect_tickers entries ++ rest /\
      (rest = [] \/ exists rest', rest = "" :: rest')) /\
  Forall (fun t => t <> "") (collect_tickers entries) /\
  collect_tickers (collect_tickers entries) = collect_tickers entries.
Proof.
  induction entries as [|t entries [[rest [Hsplit Hrest]] [Hne Hidem]]].
  - split; [|split; [constructor | reflexivity]].
    exists []. split; [reflexivity | now left].
  - cbn [collect_tickers]. destruct (String.eqb t "") eqn:E.
    + apply String.eqb_eq in E. subst t.
      split; [|split; [constructor | reflexivity]].
      exists ("" :: entries). split; [reflexivity | right; now exists entries].
    + split; [|split].
      * exists rest. split; [|assumption]. cbn [app]. now rewrite <- Hsplit.
      * constructor; [|assumption]. intros ->. discriminate E.
      * cbn [collect_tickers]. now rewrite E, Hidem.
Qed.

(** ** Failure modes of the beta calculator *)

(** X2. When the fetch of a ticker other than SPY is unavailable,
    [calculate_beta] returns None and leaves the log as the fetcher left
    it: SPY is not downloaded and no beta error is reported. *)
Theorem calculate_beta_stock_unavailable (ticker : string) (l l1 : Log) :
  ticker <> "SPY" ->
  get_historical_data ticker l = (Ok None, l1) ->
  calculate_beta ticker l = (Ok None, l1).
Proof.
  intros Hne H. unfold calculate_beta, try_except, bind.
  destruct (String.eqb ticker "SPY") eqn:E; [apply String.eqb_eq in E; contradiction|].
  now rewrite H.
Qed.

(** X3. For a ticker other than SPY whose own fetch succeeded: when the
    SPY download raises or its frame lacks the adjusted close column, the
    exception is caught and reported with the generic beta message of the
    ticker; when the SPY column is there but empty, the SPY-specific message
    is reported instead.  Each time the result is None and SPY was
    downloaded once. *)
Theorem calculate_beta_benchmark_unavailable
    (ticker : string) (l l1 : Log) (stock_data : Series) :
  ticker <> "SPY" ->
  get_historical_data ticker l = (Ok (Some stock_data), l1) ->
  match provider l1 "SPY" selected_time_period with
  | DownloadRaises =>
      calculate_beta ticker l
      = (Ok None, l1 ++ [Download "SPY" selected_time_period; StError (BetaFailed ticker)])
  | DownloadFrame df =>
      match df_column "Adj Close" df with
      | None =>
          calculate_beta ticker l
          = (Ok None,
             l1 ++ [Download "SPY" selected_time_period; StError (BetaFailed ticker)])
      | Some spy_data =>
          spy_data = [] ->
          calculate_beta ticker l
          = (Ok None, l1 ++ [Download "SPY" selected_time_period; StError NoDataForSPY])
      end
  end.
Proof.
  intros Hne H. unfold calculate_beta, try_except, bind.
  destruct (String.eqb ticker "SPY") eqn:E; [apply String.eqb_eq in E; contradiction|].
  rewrite H. unfold yf_download, lift, df_getitem, st_error, emit, ret.
  destruct (provider l1 "SPY" selected_time_period) as [|df].
  - now rewrite <- app_assoc.
  - destruct (df_column "Adj Close" df) as [spy_data|].
    + intros ->. cbn [List.length Nat.eqb]. now rewrite <- app_assoc.
    + now rewrite <- app_assoc.
Qed.

(** ** Log-returns *)

Lemma series_log_ratio (s : Series) (a : npfloat) :
  series_map np_log (series_zip np_div s (combine (index s) (a :: removelast (values s))))
  = combine (index s) (map np_log (ratios_after a (values s))).
Proof.
  revert a. induction s as [|[d v] rest IH]; intros a; [reflexivity|].
  rewrite shift1_cons. unfold series_zip, series_map in *.
  cbn [combine map index values fst snd ratios_after]. f_equal. apply IH.
Qed.

Lemma index_combine (dates : list date) (vs : list npfloat) :
  List.length dates = List.length vs -> index (combine dates vs) = dates.
Proof.
  revert vs. induction dates as [|d dates IH]; intros [|v vs] H; try discriminate H.
  - reflexivity.
  - cbn [combine index map fst]. f_equal. apply IH. now injection H.
Qed.

(** X4. Whatever the prices are (zero, negative, infinite or NaN), the
    log-return series holds no NaN and has at most [n - 1] rows for [n]
    prices.  The row of the first date is always dropped; the row of each
    later date holds [log (p[t] / p[t-1])] and is dropped too when that is
    NaN.  For positive prices nothing else is dropped: the index of the
    log-returns is the index of the prices without its first date. *)
Theorem log_returns_shape (s : Series) :
  Forall (fun x => is_nan x = false) (values (log_returns s)) /\
  (List.length (log_returns s) <= List.length s - 1)%nat /\
  match s with
  | [] => log_returns s = []
  | (d0, p0) :: rest =>
      log_returns s
      = dropna (combine (index rest) (map np_log (ratios_after p0 (values rest))))
  end /\
  (positive_prices s -> index (log_returns s) = tl (index s)).
Proof.
  assert (Hrows : match s with
                  | [] => log_returns s = []
                  | (d0, p0) :: rest =>
                      log_returns s
                      = dropna (combine (index rest)
                                        (map np_log (ratios_after p0 (values rest))))
                  end).
  { destruct s as [|[d0 p0] rest]; [reflexivity|].
    unfold log_returns, shift1. rewrite series_log_ratio.
    cbn [index values map fst snd ratios_after combine]. rewrite np_div_nan.
    reflexivity. }
  split; [|split; [|split]].
  - rewrite values_log_returns. apply Forall_forall. intros x Hx.
    apply filter_In in Hx. destruct Hx as [_ Hx]. now apply negb_true_iff in Hx.
  - replace (List.length (log_returns s)) with (List.length (values (log_returns s)))
      by (unfold values; apply length_map).
    rewrite values_log_returns.
    replace (List.length s) with (List.length (values s))
      by (unfold values; apply length_map).
    destruct (values s) as [|v vs]; [simpl; lia|].
    cbn [ratios_after map]. rewrite np_div_nan. cbn [np_log filter is_nan negb List.length].
    assert (Hlen : forall w, List.length (ratios_after w vs) = List.length vs).
    { clear. induction vs as [|u vs IH]; intros w; simpl; [reflexivity|]. now rewrite IH. }
    pose proof (filter_length_le (fun x => negb (is_nan x))
                  (map np_log (ratios_after v vs))) as Hle.
    rewrite length_map, Hlen in Hle. lia.
  - exact Hrows.
  - intros Hpos. destruct s as [|[d0 p0] rest]; [reflexivity|].
    rewrite Hrows. cbn [index map fst tl]. fold (index rest).
    destruct (positive_prices_reals _ Hpos) as [p [Hp Hall]].
    destruct p as [|v p]; [discriminate Hp|].
    cbn [values map snd] in Hp. injection Hp as -> Hrest. fold (values rest) in Hrest.
    inversion Hall as [|? ? Hv Hp']; subst.
    rewrite Hrest, (log_ratios_positive v p Hv Hp'), dropna_fin.
    apply index_combine.
    rewrite length_map, log_ratios_after_length.
    transitivity (List.length (values rest)); [unfold index, values; now rewrite !length_map|].
    now rewrite Hrest, length_map.
Qed.

(** ** The return depends on the end points only *)

Lemma last_cons_default (v a : R) (rest : list R) : last (v :: rest) a = last rest v.
Proof.
  revert v a. induction rest as [|w rest IH]; intros v a; [reflexivity|].
  change (last (v :: w :: rest) a) with (last (w :: rest) a).
  rewrite (IH w a). symmetry. apply IH.
Qed.

Lemma last_positive (a : R) (p : list R) : 0 < a -> Forall (Rlt 0) p -> 0 < last p a.
Proof.
  intros Ha Hp. revert a Ha. induction Hp as [|v rest Hv Hrest IH]; intros a Ha; [assumption|].
  rewrite last_cons_default. now apply IH.
Qed.

(** The log-returns telescope. *)
Lemma Rsum_log_ratios_after (a : R) (p : list R) :
  0 < a -> Forall (Rlt 0) p -> Rsum (log_ratios_after a p) = ln (last p a / a).
Proof.
  intros Ha Hp. revert a Ha. induction Hp as [|v rest Hv Hrest IH]; intros a Ha.
  - simpl. replace (a / a) with 1 by (field; lra). now rewrite ln_1.
  - cbn [log_ratios_after]. unfold Rsum in *. cbn [fold_right].
    rewrite (IH v Hv), last_cons_default.
    pose proof (last_positive v rest Hv Hrest) as Hl.
    rewrite <- ln_mult by (apply Rdiv_lt_0_compat; assumption).
    f_equal. field. split; lra.
Qed.

(** X5. For a fetched series of [n >= 2] positive prices the average annual
    return is [ln (last price / first price) / (n - 1)], times 252, times
    100: it depends on the two end prices and the number of rows only. *)
Theorem average_annual_return_end_points
    (ticker : string) (l l' : Log) (s : Series) (p : list R) :
  get_historical_data ticker l = (Ok (Some s), l') ->
  values s = map Fin p ->
  (2 <= List.length p)%nat ->
  Forall (Rlt 0) p ->
  calculate_average_annual_return ticker l
  = (Ok (Some (Fin (ln (last p 0 / hd 0 p) / INR (List.length p - 1) * 252 * 100))), l').
Proof.
  intros H Hs Hlen Hp. rewrite (average_annual_return_of_fetch _ _ _ _ H).
  destruct p as [|v p]; [simpl in Hlen; lia|].
  assert (Hne : p <> []) by (destruct p; [simpl in Hlen; lia | discriminate]).
  cbn [option_map]. unfold annualise.
  rewrite (mean_log_returns_positive s v p Hs Hp Hne).
  inversion Hp as [|? ? Hv Hrest]; subst.
  rewrite (Rsum_log_ratios_after v p Hv Hrest), last_cons_default.
  replace (List.length (v :: p) - 1)%nat with (List.length p) by (simpl; lia).
  reflexivity.
Qed.

(** ** Rescaled prices *)

Lemma values_scale_series (a : R) (s : Series) (p : list R) :
  values s = map Fin p -> values (scale_series a s) = map Fin (map (Rmult a) p).
Proof.
  intros H. unfold scale_series. rewrite values_series_map, H, !map_map. reflexivity.
Qed.

Lemma log_ratios_after_scale (a v : R) (p : list R) :
  0 < a -> 0 < v -> Forall (Rlt 0) p ->
  log_ratios_after (a * v) (map (Rmult a) p) = log_ratios_after v p.
Proof.
  intros Ha Hv Hp. revert v Hv. induction Hp as [|w rest Hw Hrest IH]; intros v Hv.
  - reflexivity.
  - cbn [map log_ratios_after]. rewrite (IH w Hw). f_equal. f_equal. field. split; lra.
Qed.

Lemma values_log_returns_scale (a : R) (s : Series) :
  0 < a -> positive_prices s ->
  values (log_returns (scale_series a s)) = values (log_returns s).
Proof.
  intros Ha Hpos. destruct (positive_prices_reals s Hpos) as [p [Hs Hp]].
  pose proof (values_scale_series a s p Hs) as Hs'.
  destruct p as [|v p].
  - now rewrite !values_log_returns, Hs, Hs'.
  - rewrite (values_log_returns_positive s v p Hs Hp).
    inversion Hp as [|? ? Hv Hrest]; subst.
    cbn [map] in Hs'.
    rewrite (values_log_returns_positive (scale_series a s) (a * v) (map (Rmult a) p) Hs').
    + now rewrite log_ratios_after_scale.
    + constructor; [nra|]. apply Forall_forall. intros x Hx. apply in_map_iff in Hx.
      destruct Hx as [y [<- Hy]]. rewrite Forall_forall in Hrest.
      specialize (Hrest y Hy). nra.
Qed.

Lemma mean_of_values (s t : Series) : values s = values t -> mean s = mean t.
Proof. intros H. unfold mean. now rewrite !values_dropna, H. Qed.

(** X6. Two fetches whose series differ by a positive factor on every price
    (a split or a currency change) give the same average annual return. *)
Theorem average_annual_return_scale_invariant
    (a : R) (s : Series) (ticker1 ticker2 : string) (l1 l1' l2 l2' : Log) :
  0 < a ->
  positive_prices s ->
  get_historical_data ticker1 l1 = (Ok (Some s), l1') ->
  get_historical_data ticker2 l2 = (Ok (Some (scale_series a s)), l2') ->
  fst (calculate_average_annual_return ticker2 l2)
  = fst (calculate_average_annual_return ticker1 l1).
Proof.
  intros Ha Hpos H1 H2.
  rewrite (average_annual_return_of_fetch _ _ _ _ H1),
          (average_annual_return_of_fetch _ _ _ _ H2).
  cbn [fst option_map]. unfold annualise.
  now rewrite (mean_of_values _ _ (values_log_returns_scale a s Ha Hpos)).
Qed.

Lemma matching_rows_map (f : npfloat -> npfloat) (d : date) (r : Series) :
  filter (fun '(d', _) => Z.eqb d d') (series_map f r)
  = series_map f (filter (fun '(d', _) => Z.eqb d d') r).
Proof.
  unfold series_map. induction r as [|[d' v] r IH]; simpl; [reflexivity|].
  destruct (Z.eqb d d'); simpl; now rewrite IH.
Qed.

Lemma inner_join_map (f g : npfloat -> npfloat) (l r : Series) :
  inner_join (series_map f l) (series_map g r)
  = map (fun '(d, (x, y)) => (d, (f x, g y))) (inner_join l r).
Proof.
  induction l as [|[d x] l IH]; [reflexivity|].
  cbn [series_map map inner_join]. fold (series_map f l).
  rewrite map_app, IH, matching_rows_map. f_equal.
  unfold series_map. rewrite !map_map. apply map_ext. now intros [d' y].
Qed.

Lemma columns_map (f g : npfloat -> npfloat) (m : MergedFrame) :
  left_column (map (fun '(d, (x, y)) => (d, (f x, g y))) m) = series_map f (left_column m) /\
  right_column (map (fun '(d, (x, y)) => (d, (f x, g y))) m) = series_map g (right_column m).
Proof.
  unfold left_column, right_column, series_map. rewrite !map_map.
  split; apply map_ext; now intros [d [x y]].
Qed.

Lemma positive_columns (l r : Series) :
  positive_prices l -> positive_prices r ->
  positive_prices (left_column (inner_join l r)) /\
  positive_prices (right_column (inner_join l r)).
Proof.
  unfold positive_prices. rewrite !Forall_forall. intros Hl Hr. split; intros v Hv.
  - apply Hl. now apply (in_left_column l r).
  - apply Hr. now apply (in_right_column l r).
Qed.

(** X7. The fitted beta does not change when every stock price is
    multiplied by a positive factor and every benchmark price by another
    one (positive prices). *)
Theorem beta_scale_invariant (a b : R) (stock_data spy_data : Series) :
  0 < a -> 0 < b ->
  positive_prices stock_data -> positive_prices spy_data ->
  beta_regression lstsq_nonfinite (scale_series a stock_data) (scale_series b spy_data)
  = beta_regression lstsq_nonfinite stock_data spy_data.
Proof.
  intros Ha Hb Hs Hspy. unfold beta_regression, scale_series.
  rewrite inner_join_map.
  destruct (columns_map (np_mul (Fin a)) (np_mul (Fin b)) (inner_join stock_data spy_data))
    as [-> ->].
  destruct (positive_columns stock_data spy_data Hs Hspy) as [Hl Hr].
  fold (scale_series a (left_column (inner_join stock_data spy_data))).
  fold (scale_series b (right_column (inner_join stock_data spy_data))).
  now rewrite (values_log_returns_scale a _ Ha Hl), (values_log_returns_scale b _ Hb Hr).
Qed.

(** ** The merged frame keeps the order of the dates *)

Lemma sorted_filter (f : date -> bool) (l : list date) :
  StronglySorted Z.lt l -> StronglySorted Z.lt (filter f l).
Proof.
  induction 1 as [|d l Hs IH Hall]; simpl; [constructor|].
  destruct (f d); [|assumption].
  constructor; [assumption|].
  rewrite Forall_forall in *. intros x Hx. apply filter_In in Hx. now apply Hall.
Qed.

(** X9. When the benchmark's dates are distinct, the dates of the merged
    frame are the stock's dates that the benchmark shares, in the stock's
    order; so distinct stock dates stay distinct and strictly increasing
    stock dates stay strictly increasing. *)
Theorem merged_dates (stock_data spy_data : Series) :
  NoDup (index spy_data) ->
  map fst (inner_join stock_data spy_data) = shared_dates stock_data spy_data /\
  (NoDup (index stock_data) -> NoDup (map fst (inner_join stock_data spy_data))) /\
  (StronglySorted Z.lt (index stock_data) ->
   StronglySorted Z.lt (map fst (inner_join stock_data spy_data))).
Proof.
  intros Hnd.
  assert (E : map fst (inner_join stock_data spy_data) = shared_dates stock_data spy_data).
  { unfold shared_dates. induction stock_data as [|[d a] l IH]; simpl; [reflexivity|].
    rewrite map_app, map_map, IH.
    destruct (has_date spy_data d) eqn:Ed.
    - apply has_date_in in Ed. unfold index in Ed. apply in_map_iff in Ed.
      destruct Ed as [[d' b] [Heq Hin]]. simpl in Heq. subst d'.
      now rewrite (unique_matching_row d b spy_data Hnd Hin).
    - now rewrite (no_matching_rows d spy_data Ed). }
  rewrite E. split; [reflexivity|]. split; intros H.
  - now apply NoDup_filter.
  - now apply sorted_filter.
Qed.

(** ** The ticker loop *)

Lemma writes_app (a b : Log) : writes (a ++ b) = writes a ++ writes b.
Proof.
  induction a as [|e a IH]; simpl; [reflexivity|].
  destruct e; simpl; now rewrite IH.
Qed.

Lemma fetch_events_write_nothing (e : Log) : forallb fetch_event e = true -> writes e = [].
Proof.
  induction e as [|x e IH]; simpl; [reflexivity|].
  intros H. apply andb_true_iff in H. destruct H as [Hx He].
  destruct x; try discriminate Hx; now apply IH.
Qed.

Lemma record_results_returns (ticker : string) (ret_ beta_ : option npfloat) (acc : Lists) :
  individual_returns (record_results ticker ret_ beta_ acc)
  = individual_returns acc ++ (match ret_ with Some r => [r] | None => [] end).
Proof.
  unfold record_results.
  destruct ret_, beta_ as [beta|]; try destruct (negb (String.eqb ticker "SPY"));
    simpl; now rewrite ?app_nil_r.
Qed.

Lemma record_results_betas_length (ticker : string) (ret_ beta_ : option npfloat) (acc : Lists) :
  (List.length (individual_betas (record_results ticker ret_ beta_ acc))
   <= List.length (individual_betas acc)
      + (if String.eqb ticker "SPY" then 0 else 1))%nat.
Proof.
  unfold record_results.
  destruct ret_, beta_ as [beta|]; destruct (String.eqb ticker "SPY");
    simpl; rewrite ?length_app; simpl; lia.
Qed.

Lemma ticker_loop_counts (tickers : list string) (acc : Lists) (l : Log) :
  exists acc' l',
    ticker_loop tickers acc l = (Ok acc', l') /\
    (List.length (valid_tickers acc') + List.length (individual_returns acc)
     = List.length (individual_returns acc') + List.length (valid_tickers acc))%nat /\
    (List.length (valid_tickers acc') <= List.length (valid_tickers acc)
                                         + List.length tickers)%nat /\
    List.length (writes l') = (List.length (writes l) + List.length tickers)%nat /\
    (List.length (individual_betas acc')
     <= List.length (individual_betas acc)
        + List.length (filter (fun t => negb (String.eqb t "SPY")) tickers))%nat.
Proof.
  revert acc l. induction tickers as [|t tickers IH]; intros acc l.
  - exists acc, l. cbn [ticker_loop ret List.length filter]. repeat split; lia.
  - destruct (loop_body_log t acc l) as [r [b [e1 [e2 [k [_ [_ [H [Hq _]]]]]]]]].
    destruct (IH (record_results t r b acc)
                 (((l ++ e1) ++ e2) ++ [StWrite (beta_text t b)]))
      as [acc' [l' [H' [Hv [Hv' [Hw Hb]]]]]].
    exists acc', l'. cbn [ticker_loop]. unfold bind. rewrite H, H'.
    split; [reflexivity|].
    rewrite record_results_valid, record_results_returns, !length_app in Hv.
    rewrite record_results_valid, !length_app in Hv'.
    rewrite <- (app_assoc l e1 e2), (writes_app (l ++ e1 ++ e2)),
      (writes_app l (e1 ++ e2)), (fetch_events_write_nothing _ Hq), !length_app in Hw.
    pose proof (record_results_betas_length t r b acc) as Hb'.
    cbn [writes filter List.length] in *.
    destruct r; cbn [List.length] in *;
      (destruct (String.eqb t "SPY"); cbn [negb List.length] in *; repeat split; lia).
Qed.

(** X10. The ticker loop never raises.  Started on empty lists it ends with
    as many valid tickers as recorded returns, at most one per ticker; it
    writes exactly one line per ticker; and it records at most one beta per
    ticker other than SPY. *)
Theorem ticker_loop_invariants (tickers : list string) (l : Log) :
  exists acc l',
    ticker_loop tickers (mkLists [] [] []) l = (Ok acc, l') /\
    List.length (valid_tickers acc) = List.length (individual_returns acc) /\
    (List.length (valid_tickers acc) <= List.length tickers)%nat /\
    List.length (writes l') = (List.length (writes l) + List.length tickers)%nat /\
    (List.length (individual_betas acc)
     <= List.length (filter (fun t => negb (String.eqb t "SPY")) tickers))%nat.
Proof.
  destruct (ticker_loop_counts tickers (mkLists [] [] []) l)
    as [acc [l' [H [Hv [Hv' [Hw Hb]]]]]].
  exists acc, l'. cbn [valid_tickers individual_returns individual_betas List.length] in *.
  repeat split; try assumption; lia.
Qed.

(** ** What a run downloads *)

Lemma ticker_loop_downloads (tickers : list string) (acc : Lists) (l : Log) :
  exists acc' e vs,
    ticker_loop tickers acc l = (Ok acc', l ++ e) /\
    valid_tickers acc' = valid_tickers acc ++ vs /\
    incl vs tickers /\
    (List.length vs <= List.length tickers)%nat /\
    (List.length (downloads e) <= 3 * List.length tickers)%nat /\
    Forall (fun '(t, p) => p = selected_time_period /\ t <> "" /\
                           (t = "SPY" \/ In t tickers)) (downloads e).
Proof.
  revert acc l. induction tickers as [|t tickers IH]; intros acc l.
  - exists acc, [], []. rewrite !app_nil_r. cbn [ticker_loop ret downloads List.length].
    repeat split; try easy; try lia.
  - destruct (loop_body_log t acc l) as [r [b [e1 [e2 [k [_ [_ [H [_ [Hk Hd]]]]]]]]]].
    destruct (IH (record_results t r b acc) (((l ++ e1) ++ e2) ++ [StWrite (beta_text t b)]))
      as [acc' [e [vs [H' [Hv [Hincl [Hlen [Hcount Hall]]]]]]]].
    exists acc', ((e1 ++ e2) ++ [StWrite (beta_text t b)] ++ e),
           ((match r with Some _ => [t] | None => [] end) ++ vs).
    cbn [ticker_loop]. unfold bind. rewrite H, H'.
    split; [now rewrite <- !app_assoc|].
    split; [now rewrite Hv, record_results_valid, <- app_assoc|].
    split.
    { intros x Hx. apply in_app_iff in Hx. destruct Hx as [Hx | Hx].
      - destruct r; [|destruct Hx]. destruct Hx as [-> | []]. now left.
      - right. now apply Hincl. }
    split; [rewrite length_app; destruct r; simpl; lia|].
    rewrite (downloads_app (e1 ++ e2)), (downloads_app [StWrite _] e), Hd.
    cbn [downloads app].
    assert (Hspy : "SPY" <> "") by discriminate.
    split.
    { rewrite !length_app, repeat_length.
      destruct (String.eqb t ""), (String.eqb t "SPY"); simpl; lia. }
    rewrite !Forall_app. repeat split.
    + destruct (String.eqb t "") eqn:E; constructor; [|constructor].
      repeat split; [|right; now left]. intros ->. discriminate E.
    + destruct (String.eqb t "SPY" || String.eqb t "") eqn:E; constructor; [|constructor].
      apply orb_false_iff in E. destruct E as [_ E].
      repeat split; [|right; now left]. intros ->. discriminate E.
    + apply Forall_forall. intros x Hx. apply repeat_spec in Hx. subst x.
      repeat split; [assumption | now left].
    + rewrite Forall_forall in *. intros [t' p'] Hx.
      destruct (Hall _ Hx) as [Hp [Hne [Ht | Ht]]]; repeat split; try assumption.
      * now left.
      * right. now right.
Qed.

(** X11. In a run of the script every provider call uses the selected
    period and a non-empty ticker that is SPY or one of the collected
    tickers, and the run makes at most four calls per collected ticker
    (return, beta, SPY, chart). *)
Theorem script_downloads (entries : list string) :
  Forall (fun '(t, p) => p = selected_time_period /\ t <> "" /\
                         (t = "SPY" \/ In t (collect_tickers entries)))
         (downloads (snd (script entries []))) /\
  (List.length (downloads (snd (script entries [])))
   <= 4 * List.length (collect_tickers entries))%nat.
Proof.
  unfold script, bind.
  destruct (ticker_loop_downloads (collect_tickers entries) (mkLists [] [] []) [])
    as [acc [e [vs [H [Hv [Hincl [Hlen [Hcount Hall]]]]]]]].
  rewrite H. cbn [app valid_tickers] in *.
  destruct (chart_condition acc).
  - destruct (visualize_returns_log (valid_tickers acc) e) as [fig [e' [H' [_ Hd]]]].
    rewrite H'. cbn [snd]. rewrite !downloads_app, Hd. cbn [downloads]. rewrite app_nil_r.
    split.
    + rewrite Forall_app. split; [assumption|].
      apply Forall_forall. intros [t p] Hx. apply in_map_iff in Hx.
      destruct Hx as [t' [Heq Hin]]. injection Heq as -> ->.
      apply filter_In in Hin. destruct Hin as [Hin Hne]. rewrite Hv in Hin.
      repeat split.
      * intros ->. discriminate Hne.
      * right. apply Hincl. assumption.
    + rewrite length_app, length_map.
      pose proof (filter_length_le (fun t => negb (String.eqb t "")) (valid_tickers acc)).
      rewrite Hv in *. lia.
  - unfold st_write, emit. cbn [snd]. rewrite downloads_app. cbn [downloads].
    rewrite app_nil_r. split; [assumption | lia].
Qed.

(** ** The chart *)

Lemma line_colors_distinct : NoDup line_colors.
Proof.
  unfold line_colors.
  repeat (constructor; [simpl; intuition discriminate|]). constructor.
Qed.

Lemma add_traces_figure (tickers : list string) (i : nat) (fig : Figure) (l : Log) :
  exists new e,
    add_traces i tickers fig l = (Ok (fig ++ new), l ++ e) /\
    (List.length new <= List.length tickers)%nat /\
    Forall (fun sc => exists j,
                (j < List.length tickers)%nat /\
                nth j tickers "" = sc_name sc /\
                sc_color sc = nth ((i + j) mod 13) line_colors "") new.
Proof.
  revert i fig l. induction tickers as [|t tickers IH]; intros i fig l.
  - exists [], []. rewrite !app_nil_r. repeat split; [reflexivity | constructor].
  - cbn [add_traces]. unfold bind.
    destruct (get_historical_data_log t l) as [v [e [H _]]]. rewrite H.
    destruct v as [data|].
    + destruct (IH (S i)
                   (fig ++ [mkScatter (index data) (values data) t
                              (nth (i mod List.length line_colors) line_colors "")])
                   (l ++ e)) as [new [e' [H' [Hlen Hall]]]].
      exists (mkScatter (index data) (values data) t
                (nth (i mod List.length line_colors) line_colors "") :: new), (e ++ e').
      rewrite H', <- !app_assoc. split; [reflexivity|].
      split; [simpl; lia|].
      constructor.
      * exists 0%nat. cbn [List.length nth sc_name sc_color]. rewrite Nat.add_0_r.
        repeat split. lia.
      * rewrite Forall_forall in *. intros sc Hsc.
        destruct (Hall sc Hsc) as [j [Hj [Hname Hcolor]]].
        exists (S j). cbn [List.length nth]. rewrite Hcolor.
        repeat split; [lia | assumption | f_equal; f_equal; lia].
    + destruct (IH (S i) fig (l ++ e)) as [new [e' [H' [Hlen Hall]]]].
      exists new, (e ++ e'). rewrite H', <- !app_assoc. split; [reflexivity|].
      split; [simpl; lia|].
      rewrite Forall_forall in *. intros sc Hsc.
      destruct (Hall sc Hsc) as [j [Hj [Hname Hcolor]]].
      exists (S j). cbn [List.length nth]. rewrite Hcolor.
      repeat split; [lia | assumption | f_equal; f_equal; lia].
Qed.

(** X12. [visualize_returns] never raises and draws exactly one chart, last
    in the log.  The chart has at most one trace per ticker; each trace is
    named after the ticker at some position [j] of the list and coloured
    with palette entry [j mod 13].  Two positions get the same colour
    exactly when they are equal modulo 13, so neighbours never do. *)
Theorem visualize_returns_chart (tickers : list string) (l : Log) :
  (exists fig l',
      visualize_returns tickers l = (Ok tt, l' ++ [PlotlyChart fig]) /\
      has_chart l' = has_chart l /\
      (List.length fig <= List.length tickers)%nat /\
      Forall (fun sc => exists j,
                  (j < List.length tickers)%nat /\
                  nth j tickers "" = sc_name sc /\
                  sc_color sc = nth (j mod 13) line_colors "") fig) /\
  (forall i j,
      nth (i mod 13) line_colors "" = nth (j mod 13) line_colors ""
      <-> i mod 13 = j mod 13) /\
  (forall j, nth (j mod 13) line_colors "" <> nth (S j mod 13) line_colors "").
Proof.
  assert (Hcol : forall i j,
             nth (i mod 13) line_colors "" = nth (j mod 13) line_colors ""
             <-> i mod 13 = j mod 13).
  { intros i j. split; [|now intros ->].
    apply (proj1 (NoDup_nth line_colors "") line_colors_distinct);
      apply Nat.mod_upper_bound; discriminate. }
  split; [|split; [exact Hcol|]].
  - destruct (add_traces_figure tickers 0 [] l) as [fig [e [H [Hlen Hall]]]].
    destruct (visualize_returns_log tickers l) as [fig' [e' [H' [Hq _]]]].
    exists fig', (l ++ e'). split; [assumption|].
    unfold visualize_returns, bind, emit in H'. rewrite H in H'. cbn [app] in H'.
    injection H' as H'. apply app_inj_tail in H'. destruct H' as [_ Hfig].
    injection Hfig as <-.
    split; [rewrite has_chart_app; destruct (fetch_events_quiet _ Hq) as [_ ->];
            apply orb_false_r|].
    split; assumption.
  - intros j Heq. apply Hcol in Heq.
    pose proof (Nat.mod_upper_bound j 13). pose proof (Nat.mod_upper_bound (S j) 13).
    pose proof (Nat.div_mod_eq j 13). pose proof (Nat.div_mod_eq (S j) 13). lia.
Qed.

(** ** SPY as an entered ticker *)

(** X13. The iteration for the entry SPY downloads SPY exactly once (for the
    return; the beta needs no data), always writes the fixed SPY line,
    never records a beta, and records SPY as valid exactly when its return
    is not None. *)
Theorem spy_iteration (acc : Lists) (l : Log) :
  exists ret_ e,
    calculate_average_annual_return "SPY" l = (Ok ret_, l ++ e) /\
    downloads e = [("SPY", selected_time_period)] /\
    loop_body "SPY" acc l
    = (Ok (record_results "SPY" ret_ (Some (Fin 1)) acc), (l ++ e) ++ [StWrite SpyBetaLine]) /\
    individual_betas (record_results "SPY" ret_ (Some (Fin 1)) acc) = individual_betas acc /\
    valid_tickers (record_results "SPY" ret_ (Some (Fin 1)) acc)
    = valid_tickers acc ++ (match ret_ with Some _ => ["SPY"] | None => [] end).
Proof.
  destruct (calculate_average_annual_return_log "SPY" l) as [r [e [H [_ Hd]]]].
  exists r, e. split; [assumption|]. split; [assumption|].
  split; [|split].
  - unfold loop_body, bind. rewrite H. reflexivity.
  - rewrite record_results_betas. cbn. apply app_nil_r.
  - apply record_results_valid.
Qed.

(** ** Exceptions stay inside the calculators *)

(** X14. [calculate_beta] never lets an exception escape.  It only adds
    provider calls and error messages to the log (no written line, no
    chart): one call for the ticker itself unless that is SPY or empty,
    then at most one call for SPY. *)
Theorem calculate_beta_contained (ticker : string) (l : Log) :
  exists v e k,
    calculate_beta ticker l = (Ok v, l ++ e) /\
    writes e = [] /\ has_chart e = false /\
    (k <= 1)%nat /\
    downloads e
    = (if String.eqb ticker "SPY" || String.eqb ticker "" then []
       else [(ticker, selected_time_period)])
      ++ repeat ("SPY", selected_time_period) k.
Proof.
  destruct (calculate_beta_log ticker l) as [v [e [k [H [Hq [Hk Hd]]]]]].
  exists v, e, k. split; [assumption|].
  split; [now apply fetch_events_write_nothing|].
  split; [now destruct (fetch_events_quiet e Hq)|]. now split.
Qed.

(** X15. [calculate_average_annual_return] never raises, logs exactly what
    the fetcher logs, and returns None exactly when the fetcher does: a
    fetched series always gives a float, be it NaN or infinite. *)
Theorem average_annual_return_contained (ticker : string) (l : Log) :
  exists fetched l',
    get_historical_data ticker l = (Ok fetched, l') /\
    calculate_average_annual_return ticker l = (Ok (option_map annualise fetched), l') /\
    (option_map annualise fetched = None <-> fetched = None).
Proof.
  destruct (get_historical_data_log ticker l) as [v [e [H _]]].
  exists v, (l ++ e). split; [assumption|].
  split; [now apply average_annual_return_of_fetch|].
  destruct v; split; intros E; try discriminate E; reflexivity.
Qed.

(** ** The period select box *)

Lemma list_index_spec (x : string) (l : list string) :
  match list_index x l with
  | Some i =>
      (i < List.length l)%nat /\ nth i l "" = x /\
      forall j, (j < i)%nat -> nth j l "" <> x
  | None => ~ In x l
  end.
Proof.
  induction l as [|y l IH]; cbn [list_index]; [intros []|].
  destruct (String.eqb y x) eqn:E.
  - apply String.eqb_eq in E. subst y. repeat split; [simpl; lia | intros j Hj; lia].
  - apply String.eqb_neq in E.
    destruct (list_index x l) as [i|]; cbn [option_map].
    + destruct IH as [Hi [Hn Hfirst]]. repeat split; [simpl; lia | assumption |].
      intros [|j] Hj; [assumption|]. apply Hfirst. lia.
    + intros [H | H]; [contradiction | now apply IH].
Qed.

(** X16. [l.index(x)] finds the first position of [x] and fails only when
    [x] is absent.  For the period list the default position exists, so
    the select box starts on 10y, and whatever position the user picks the
    selected period is one of the eleven offered tokens. *)
Theorem period_selection :
  (forall x l,
      match list_index x l with
      | Some i =>
          (i < List.length l)%nat /\ nth i l "" = x /\
          forall j, (j < i)%nat -> nth j l "" <> x
      | None => ~ In x l
      end) /\
  select_time_period None = Some default_time_period /\
  (forall k, (k < List.length time_periods)%nat ->
             exists p, select_time_period (Some k) = Some p /\ In p time_periods).
Proof.
  split; [exact list_index_spec|]. split; [reflexivity|].
  intros k Hk. exists (nth k time_periods ""). split; [reflexivity|].
  now apply nth_In.
Qed.

End App.

(** * Concrete runs *)

(** C2, at a provider that answers with the prices 1 and 2, and at one
    that is offline. *)
Lemma average_annual_return_formula_witness :
  calculate_average_annual_return "1y" (always [(0%Z, 1); (1%Z, 2)]) "AAPL" []
  = (Ok (Some (Fin (annualised_mean_log_return [1; 2]))), [Download "AAPL" "1y"])
  /\ calculate_average_annual_return "1y" offline "AAPL" []
     = (Ok None, [Download "AAPL" "1y"; StError (FetchFailed "AAPL")]).
Proof.
  split.
  - apply (average_annual_return_formula "1y" (always [(0%Z, 1); (1%Z, 2)]) "AAPL" []
             [Download "AAPL" "1y"] (Some [(0%Z, Fin 1); (1%Z, Fin 2)]) eq_refl [1; 2]).
    + reflexivity.
    + simpl. lia.
    + repeat constructor; lra.
  - exact (average_annual_return_formula "1y" offline "AAPL" []
             [Download "AAPL" "1y"; StError (FetchFailed "AAPL")] None eq_refl).
Defined.

(** C3 as stated fails: with a provider that answers with one row, the
    return calculator gives the float NaN, which is not None, and the
    ticker loop records the ticker as valid with that return. *)
Lemma single_price_return_not_none :
  get_historical_data "1y" (always [(0%Z, 100)]) "AAPL" []
  = (Ok (Some [(0%Z, Fin 100)]), [Download "AAPL" "1y"])
  /\ fst (calculate_average_annual_return "1y" (always [(0%Z, 100)]) "AAPL" [])
     = Ok (Some NaN)
  /\ fst (calculate_average_annual_return "1y" (always [(0%Z, 100)]) "AAPL" [])
     <> Ok None
  /\ fst (ticker_loop "1y" (always [(0%Z, 100)]) lstsq_gives_up ["AAPL"] (mkLists [] [] []) [])
     = Ok (mkLists ["AAPL"] [NaN] []).
Proof.
  split; [reflexivity|]. split; [reflexivity|]. split; [discriminate|]. reflexivity.
Qed.

Lemma single_price_return_is_nan_witness :
  calculate_average_annual_return "1y" (always [(0%Z, 100)]) "AAPL" []
  = (Ok (Some NaN), [Download "AAPL" "1y"]).
Proof.
  apply (single_price_return_is_nan "1y" (always [(0%Z, 100)]) "AAPL" []
           [Download "AAPL" "1y"] [(0%Z, Fin 100)]); reflexivity.
Defined.

(** C9 as stated fails: SPY is entered and gets its beta line, yet with the
    provider offline it is not a valid ticker, and the run ends with the
    no-valid-tickers message instead of a chart. *)
Lemma benchmark_entered_no_chart :
  In "SPY" (collect_tickers ["SPY"])
  /\ calculate_beta "1y" offline lstsq_gives_up "SPY"
       [Download "SPY" "1y"; StError (FetchFailed "SPY")]
     = (Ok (Some (Fin 1)), [Download "SPY" "1y"; StError (FetchFailed "SPY")])
  /\ script "1y" offline lstsq_gives_up ["SPY"] []
     = (Ok tt, [Download "SPY" "1y"; StError (FetchFailed "SPY");
                StWrite SpyBetaLine; StWrite NoValidTickers])
  /\ has_chart (snd (script "1y" offline lstsq_gives_up ["SPY"] [])) = false.
Proof.
  split; [now left|]. split; [reflexivity|]. split; reflexivity.
Qed.

(** C10, at a provider that answers every request with the same single
    row: AAPL and SPY share one date. *)
Lemma beta_fails_on_short_overlap_witness :
  calculate_beta "1y" (always [(0%Z, 100)]) lstsq_gives_up "AAPL" []
  = (Ok None, [Download "AAPL" "1y"; Download "SPY" "1y"; StError (BetaFailed "AAPL")]).
Proof.
  apply (beta_fails_on_short_overlap "1y" (always [(0%Z, 100)]) lstsq_gives_up "AAPL" []
           [Download "AAPL" "1y"] [(0%Z, Fin 100)] [(0%Z, Fin 100)]
           (frame_of [(0%Z, 100)])).
  - discriminate.
  - reflexivity.
  - reflexivity.
  - reflexivity.
  - discriminate.
  - repeat constructor. intros [].
  - simpl. lia.
Defined.

Lemma ln_2_pos : 0 < ln (2 / 1).
Proof.
  rewrite <- ln_1. apply ln_increasing; lra.
Qed.

Lemma log_returns_1_2_2 :
  consecutive_log_returns [1; 2; 2] = [ln (2 / 1); ln (2 / 2)].
Proof. reflexivity. Qed.

Lemma varying_1_2_2 : varying (consecutive_log_returns [1; 2; 2]).
Proof.
  rewrite log_returns_1_2_2. exists (ln (2 / 1)), (ln (2 / 2)).
  split; [now left|]. split; [right; now left|].
  replace (2 / 2) with 1 by lra. rewrite ln_1.
  pose proof ln_2_pos. lra.
Qed.


(** With two prices there is a single return: the system has rank 1 and
    the fit returns the slope 1/2. *)
Lemma two_point_regression :
  beta_regression lstsq_gives_up
    [(0%Z, Fin 1); (1%Z, Fin 2)] [(0%Z, Fin 1); (1%Z, Fin 2)]
  = Ok (Fin (1 / 2)).
Proof.
  unfold beta_regression.
  rewrite inner_join_self by (repeat constructor; simpl; intuition discriminate).
  destruct (columns_of_diagonal [(0%Z, Fin 1); (1%Z, Fin 2)]) as [-> ->].
  rewrite (values_log_returns_positive [(0%Z, Fin 1); (1%Z, Fin 2)] 1 [2] eq_refl)
    by (repeat constructor; lra).
  pose proof ln_2_pos as Hpos.
  unfold polyfit1. cbn [map log_ratios_after List.length Nat.eqb negb finites finite
                        dot Rsum fold_right INR].
  destruct (Req_dec_T (ln (2 / 1) * ln (2 / 1) + 0) 0) as [E | _]; [nra|].
  destruct (Req_dec_T (1 * (ln (2 / 1) * ln (2 / 1) + 0)
                       - (ln (2 / 1) + 0) * (ln (2 / 1) + 0)) 0) as [_ | E]; [|lra].
  do 2 f_equal. field. lra.
Qed.


(** C8, at the constant price 100 on three dates, fetched by any ticker and
    regressed on a benchmark with the prices 1, 2, 2. *)
Lemma constant_series_zero_witness :
  calculate_average_annual_return "1y"
    (always [(0%Z, 100); (1%Z, 100); (2%Z, 100)]) "KO" []
  = (Ok (Some (Fin 0)), [Download "KO" "1y"])
  /\ beta_regression lstsq_gives_up
       [(0%Z, Fin 100); (1%Z, Fin 100); (2%Z, Fin 100)]
       [(0%Z, Fin 1); (1%Z, Fin 2); (2%Z, Fin 2)]
     = Ok (Fin 0).
Proof.
  assert (H : 0 < 100) by lra.
  destruct (constant_series_zero "1y"
              (always [(0%Z, 100); (1%Z, 100); (2%Z, 100)]) lstsq_gives_up
              100 3 [(0%Z, Fin 100); (1%Z, Fin 100); (2%Z, Fin 100)]
              H (le_S 2 2 (le_n 2)) eq_refl) as [H1 H2].
  split.
  - apply H1. reflexivity.
  - apply H2.
    + repeat constructor; eexists; (split; [reflexivity | lra]).
    + change (right_column (inner_join [(0%Z, Fin 100); (1%Z, Fin 100); (2%Z, Fin 100)]
                              [(0%Z, Fin 1); (1%Z, Fin 2); (2%Z, Fin 2)]))
        with [(0%Z, Fin 1); (1%Z, Fin 2); (2%Z, Fin 2)].
      rewrite (values_log_returns_positive
                 [(0%Z, Fin 1); (1%Z, Fin 2); (2%Z, Fin 2)] 1 [2; 2] eq_refl)
        by (repeat constructor; lra).
      rewrite log_ratios_after_indexed.
      destruct varying_1_2_2 as [a [b [Ha [Hb Hab]]]].
      exists (Fin a), (Fin b). split; [now apply in_map|]. split; [now apply in_map|].
      intros E. apply Hab. now injection E.
Defined.

(** C6, at a stock listed on the days 0, 1, 3 and a benchmark listed on the
    days 1, 2, 3: the fit is run on the log-returns over the days 1 and 3. *)
Lemma beta_uses_shared_dates_only_witness :
  calculate_beta "1y"
    (two_listings [(0%Z, 5); (1%Z, 6); (3%Z, 7)] [(1%Z, 1); (2%Z, 2); (3%Z, 3)])
    lstsq_gives_up "AAPL" []
  = match polyfit1 lstsq_gives_up
            (values (log_returns [(1%Z, Fin 1); (3%Z, Fin 3)]))
            (values (log_returns [(1%Z, Fin 6); (3%Z, Fin 7)])) with
    | Ok (slope, _) => (Ok (Some slope), [Download "AAPL" "1y"; Download "SPY" "1y"])
    | Raise _ =>
        (Ok None, [Download "AAPL" "1y"; Download "SPY" "1y"; StError (BetaFailed "AAPL")])
    end.
Proof.
  destruct (beta_uses_shared_dates_only "1y"
              (two_listings [(0%Z, 5); (1%Z, 6); (3%Z, 7)] [(1%Z, 1); (2%Z, 2); (3%Z, 3)])
              lstsq_gives_up
              [(0%Z, Fin 5); (1%Z, Fin 6); (3%Z, Fin 7)]
              [(1%Z, Fin 1); (2%Z, Fin 2); (3%Z, Fin 3)]
              ltac:(repeat constructor; lia) ltac:(repeat constructor; lia))
    as [_ [_ [_ [_ [_ [_ H]]]]]].
  apply (H "AAPL" [] [Download "AAPL" "1y"] (frame_of [(1%Z, 1); (2%Z, 2); (3%Z, 3)])).
  - discriminate.
  - reflexivity.
  - reflexivity.
  - reflexivity.
  - discriminate.
Defined.

(** The run on AAPL and blank when the provider answers every request with
    the prices 1 and 2. *)
Lemma aapl_run_with_data :
  snd (script "1y" (always [(0%Z, 1); (1%Z, 2)]) lstsq_gives_up ["AAPL"; ""] [])
  = [Download "AAPL" "1y"; Download "AAPL" "1y"; Download "SPY" "1y";
     StWrite (BetaLine "AAPL" (Fin (1 / 2)));
     Download "AAPL" "1y";
     PlotlyChart [mkScatter [0%Z; 1%Z] [Fin 1; Fin 2] "AAPL" "blue"]].
Proof.
  pose proof (average_annual_return_of_fetch "1y" (always [(0%Z, 1); (1%Z, 2)])
                "AAPL" [] [Download "AAPL" "1y"]
                (Some [(0%Z, Fin 1); (1%Z, Fin 2)]) eq_refl) as H1.
  assert (H2 : calculate_beta "1y" (always [(0%Z, 1); (1%Z, 2)]) lstsq_gives_up "AAPL"
                 [Download "AAPL" "1y"]
               = (Ok (Some (Fin (1 / 2))),
                  [Download "AAPL" "1y"; Download "AAPL" "1y"; Download "SPY" "1y"])).
  { rewrite (calculate_beta_regression "1y" (always [(0%Z, 1); (1%Z, 2)]) lstsq_gives_up
               "AAPL" [Download "AAPL" "1y"]
               [Download "AAPL" "1y"; Download "AAPL" "1y"]
               [(0%Z, Fin 1); (1%Z, Fin 2)] [(0%Z, Fin 1); (1%Z, Fin 2)]
               (frame_of [(0%Z, 1); (1%Z, 2)]));
      try reflexivity; try discriminate.
    now rewrite two_point_regression. }
  unfold script, bind.
  cbn [collect_tickers String.eqb Ascii.eqb Bool.eqb ticker_loop].
  unfold bind, loop_body, bind. rewrite H1. cbn [app]. rewrite H2.
  reflexivity.
Qed.

(** C5 as stated fails: the run on AAPL and blank calls the provider three
    times for AAPL when data exists (return, beta, chart), and twice even
    when the provider is offline. *)
Lemma aapl_downloaded_more_than_once :
  count_downloads "AAPL"
    (snd (script "1y" (always [(0%Z, 1); (1%Z, 2)]) lstsq_gives_up ["AAPL"; ""] []))
  = 3%nat
  /\ count_downloads "AAPL"
       (snd (script "1y" (always [(0%Z, 1); (1%Z, 2)]) lstsq_gives_up ["AAPL"; ""] []))
     <> 1%nat
  /\ count_downloads "AAPL" (snd (script "1y" offline lstsq_gives_up ["AAPL"; ""] []))
     = 2%nat
  /\ snd (script "1y" offline lstsq_gives_up ["AAPL"; ""] [])
     = [Download "AAPL" "1y"; StError (FetchFailed "AAPL");
        Download "AAPL" "1y"; StError (FetchFailed "AAPL");
        StWrite EmptyLine; StWrite NoValidTickers].
Proof.
  split; [now rewrite aapl_run_with_data|].
  split; [rewrite aapl_run_with_data; discriminate|]. split; reflexivity.
Qed.

(** * Further concrete runs *)

(** X2, with the provider offline. *)
Lemma calculate_beta_stock_unavailable_witness :
  calculate_beta "1y" offline lstsq_gives_up "AAPL" []
  = (Ok None, [Download "AAPL" "1y"; StError (FetchFailed "AAPL")]).
Proof.
  apply (calculate_beta_stock_unavailable "1y" offline lstsq_gives_up "AAPL" []).
  - discriminate.
  - reflexivity.
Defined.

(** X3, with the SPY listing down and with an empty SPY listing. *)
Lemma calculate_beta_benchmark_unavailable_witness :
  calculate_beta "1y" (spy_down [(0%Z, 100)]) lstsq_gives_up "AAPL" []
  = (Ok None, [Download "AAPL" "1y"; Download "SPY" "1y"; StError (BetaFailed "AAPL")])
  /\ calculate_beta "1y" (two_listings [(0%Z, 100)] []) lstsq_gives_up "AAPL" []
     = (Ok None, [Download "AAPL" "1y"; Download "SPY" "1y"; StError NoDataForSPY]).
Proof.
  split.
  - apply (calculate_beta_benchmark_unavailable "1y" (spy_down [(0%Z, 100)]) lstsq_gives_up
             "AAPL" [] [Download "AAPL" "1y"] [(0%Z, Fin 100)]).
    + discriminate.
    + reflexivity.
  - apply (calculate_beta_benchmark_unavailable "1y" (two_listings [(0%Z, 100)] [])
             lstsq_gives_up "AAPL" [] [Download "AAPL" "1y"] [(0%Z, Fin 100)]).
    + discriminate.
    + reflexivity.
    + reflexivity.
Defined.

(** X5, at the prices 1, 2, 2. *)
Lemma average_annual_return_end_points_witness :
  calculate_average_annual_return "1y" (always [(0%Z, 1); (1%Z, 2); (2%Z, 2)]) "AAPL" []
  = (Ok (Some (Fin (ln (2 / 1) / INR 2 * 252 * 100))), [Download "AAPL" "1y"]).
Proof.
  apply (average_annual_return_end_points "1y" (always [(0%Z, 1); (1%Z, 2); (2%Z, 2)])
           "AAPL" [] [Download "AAPL" "1y"]
           [(0%Z, Fin 1); (1%Z, Fin 2); (2%Z, Fin 2)] [1; 2; 2]).
  - reflexivity.
  - reflexivity.
  - simpl. lia.
  - repeat constructor; lra.
Defined.

Lemma positive_1_2 : positive_prices [(0%Z, Fin 1); (1%Z, Fin 2)].
Proof. repeat constructor; eexists; (split; [reflexivity | lra]). Qed.

(** X6, at a listing and its double. *)
Lemma average_annual_return_scale_invariant_witness :
  fst (calculate_average_annual_return "1y"
         (two_listings [(0%Z, 1); (1%Z, 2)] [(0%Z, 2 * 1); (1%Z, 2 * 2)]) "SPY" [])
  = fst (calculate_average_annual_return "1y"
           (two_listings [(0%Z, 1); (1%Z, 2)] [(0%Z, 2 * 1); (1%Z, 2 * 2)]) "AAPL" []).
Proof.
  apply (average_annual_return_scale_invariant "1y"
           (two_listings [(0%Z, 1); (1%Z, 2)] [(0%Z, 2 * 1); (1%Z, 2 * 2)])
           2 [(0%Z, Fin 1); (1%Z, Fin 2)] "AAPL" "SPY"
           [] [Download "AAPL" "1y"] [] [Download "SPY" "1y"]).
  - lra.
  - exact positive_1_2.
  - reflexivity.
  - reflexivity.
Defined.

(** X7, doubling the stock and tripling the benchmark. *)
Lemma beta_scale_invariant_witness :
  beta_regression lstsq_gives_up
    (scale_series 2 [(0%Z, Fin 1); (1%Z, Fin 2)])
    (scale_series 3 [(0%Z, Fin 1); (1%Z, Fin 2)])
  = beta_regression lstsq_gives_up
      [(0%Z, Fin 1); (1%Z, Fin 2)] [(0%Z, Fin 1); (1%Z, Fin 2)].
Proof.
  apply (beta_scale_invariant lstsq_gives_up 2 3); try lra; exact positive_1_2.
Defined.

(** X9, at a stock listed on the days 0, 1, 3 and a benchmark listed on the
    days 1, 2, 3. *)
Lemma merged_dates_witness :
  map fst (inner_join [(0%Z, Fin 5); (1%Z, Fin 6); (3%Z, Fin 7)]
                      [(1%Z, Fin 1); (2%Z, Fin 2); (3%Z, Fin 3)])
  = [1%Z; 3%Z].
Proof.
  apply (proj1 (merged_dates [(0%Z, Fin 5); (1%Z, Fin 6); (3%Z, Fin 7)]
                             [(1%Z, Fin 1); (2%Z, Fin 2); (3%Z, Fin 3)]
                             ltac:(repeat constructor; simpl; intuition discriminate))).
Defined.
